(** * PDF_PageGrid: grid planning, poster composition, downscaling and the
      batch driver of [PDF_PageGrid.py], as a shallow embedding.

    Python integers are unbounded, so they are modelled by [Z]; Python's
    [//] and [%] are floor division and the matching remainder, which is
    what [Z.div] and [Z.modulo] compute (for either sign of the divisor).
    Python floats are IEEE 754 binary64 values, modelled by the Standard
    Library's [spec_float] at precision 53 and maximal exponent 1024.
    Python strings are modelled by their UTF-8 encoding. Exceptions are
    modelled by an explicit error monad. *)

From Stdlib Require Import ZArith String Ascii List Lia SpecFloat.
From stdpp Require Import base gmap strings list.

Open Scope Z_scope.

(** ** Exceptions and the error monad *)

Inductive exn : Type :=
| ValueError (msg : string)
| ZeroDivisionError
| OverflowError
| MemoryError
| RuntimeError (msg : string)
| OSError (msg : string).

Inductive result (A : Type) : Type :=
| Ok (a : A)
| Raise (e : exn).

Arguments Ok {A} a.
Arguments Raise {A} e.

Definition bind {A B : Type} (m : result A) (k : A -> result B) : result B :=
  match m with
  | Ok a => k a
  | Raise e => Raise e
  end.

Notation "'do' x <- m ; k" := (bind m (fun x => k))
  (at level 10, x name, m at level 100, k at level 200).

(** Python's [a // b] and [a % b] on integers. *)
Definition floordiv (a b : Z) : result Z :=
  if b =? 0 then Raise ZeroDivisionError else Ok (a / b).

Definition pymod (a b : Z) : result Z :=
  if b =? 0 then Raise ZeroDivisionError else Ok (a mod b).

(** Python's [max] over a generator of integers. *)
Definition py_max (l : list Z) : result Z :=
  match l with
  | [] => Raise (ValueError "max() arg is an empty sequence")
  | x :: xs => Ok (fold_left Z.max xs x)
  end.

(** ** Images

    Pixel data is not modelled: an image is the term of Pillow operations
    that built it, which keeps its size, its identity and, for a poster,
    the pages pasted into it and where. *)

Definition rgb : Type := Z * Z * Z.

Inductive Image : Type :=
| Pixmap (w h : Z) (samples : nat)      (* Image.frombytes("RGB", [w, h], samples) *)
| Blank (w h : Z) (color : rgb)         (* Image.new("RGB", (w, h), color) *)
| Pasted (base im : Image) (x y : Z)    (* base.paste(im, (x, y)) *)
| Resampled (src : Image) (w h : Z).    (* src.resize((w, h), Image.LANCZOS) *)

Fixpoint width (img : Image) : Z :=
  match img with
  | Pixmap w _ _ => w
  | Blank w _ _ => w
  | Pasted base _ _ _ => width base
  | Resampled _ w _ => w
  end.

Fixpoint height (img : Image) : Z :=
  match img with
  | Pixmap _ h _ => h
  | Blank _ h _ => h
  | Pasted base _ _ _ => height base
  | Resampled _ _ h => h
  end.

(** The pages pasted into an image, oldest first, with their offsets. *)
Fixpoint pastes (img : Image) : list (Image * (Z * Z)) :=
  match img with
  | Pasted base im x y => pastes base ++ [(im, (x, y))]
  | _ => []
  end.

(** ** The outside world

    What the script obtains from Pillow's colour table and allocator, from
    PyMuPDF, from the file system and from the interpreter's settings. *)

Definition Path : Type := string.

Record Env : Type := {
  (* ImageColor.getrgb: [None] stands for its ValueError *)
  getrgb : string -> option rgb;
  (* the pages PyMuPDF renders for a document at a DPI, or its failure *)
  fitz_pages : Path -> Z -> result (list Image);
  (* whether a directory can be created (or already exists) *)
  can_mkdir : Path -> bool;
  (* whether an image file can be written at a path *)
  can_write : Path -> bool;
  (* the PDF files found at an input path, sorted *)
  pdfs_at : Path -> list Path;
  (* pathlib: the final component of a path without its suffix *)
  path_stem : Path -> string;
  (* whether Pillow obtains the memory of an RGB image of a width and height *)
  can_allocate : Z -> Z -> bool;
  (* sys.get_int_max_str_digits(): the most digits int() reads, 0 for no limit *)
  int_max_str_digits : Z
}.

(** ** Pillow's Image.new and Image.paste

    Pillow hands sizes and boxes to its C core as C ints. *)

Definition INT_MAX : Z := 2147483647.

Definition c_int (z : Z) : bool := (- INT_MAX - 1 <=? z) && (z <=? INT_MAX).

(** [Image.new("RGB", (w, h), color)]: a negative size is refused, a size
    that is no C int overflows, and the allocation may fail. *)
Definition Image_new (E : Env) (w h : Z) (color : rgb) : result Image :=
  if (w <? 0) || (h <? 0)
  then Raise (ValueError "Width and height must be >= 0")
  else if negb (c_int w && c_int h) then Raise OverflowError
  else if negb (can_allocate E w h) then Raise MemoryError
  else Ok (Blank w h color).

(** The box [(x, y, x + im.width, y + im.height)] of a paste is made of
    C ints. *)
Definition box_fits (im : Image) (x y : Z) : bool :=
  c_int x && c_int y && c_int (x + width im) && c_int (y + height im).

(** [base.paste(im, (x, y))]; what lies outside the base is clipped. *)
Definition Image_paste (base im : Image) (x y : Z) : result Image :=
  if box_fits im x y then Ok (Pasted base im x y) else Raise OverflowError.

(** ** make_poster *)

Section Compose.
Variables (cols margin spacing cell_w cell_h : Z).

(** The paste loop, [for idx, im in enumerate(images)]. *)
Fixpoint paste_pages (images : list Image) (idx : Z) (poster : Image)
  : result Image :=
  match images with
  | [] => Ok poster
  | im :: rest =>
      do r <- floordiv idx cols;
      do c <- pymod idx cols;
      let x0 := margin + c * (cell_w + spacing) in
      let y0 := margin + r * (cell_h + spacing) in
      let off_x := x0 + (cell_w - width im) / 2 in
      let off_y := y0 + (cell_h - height im) / 2 in
      do poster <- Image_paste poster im off_x off_y;
      paste_pages rest (idx + 1) poster
  end.
End Compose.

Definition make_poster (E : Env) (images : list Image)
    (cols rows margin spacing : Z) (bg : string) : result Image :=
  match images with
  | [] => Raise (ValueError "No images to compose.")
  | _ =>
      do bg_rgb <- match getrgb E bg with
                   | Some c => Ok c
                   | None => Raise (ValueError "unknown color specifier")
                   end;
      do cell_w <- py_max (width <$> images);
      do cell_h <- py_max (height <$> images);
      let grid_w := cols * cell_w + (cols - 1) * spacing in
      let grid_h := rows * cell_h + (rows - 1) * spacing in
      let total_w := grid_w + 2 * margin in
      let total_h := grid_h + 2 * margin in
      do poster <- Image_new E total_w total_h bg_rgb;
      paste_pages cols margin spacing cell_w cell_h images 0 poster
  end.

(** ** Floating point, as Python exposes it *)

Definition prec : Z := 53.
Definition emax : Z := 1024.

(** [float(n)] for an integer: rounded to nearest even, OverflowError
    when the rounded value is not finite. *)
Definition float_of_int (n : Z) : result spec_float :=
  match binary_normalize prec emax n 0 false with
  | S754_infinity _ => Raise OverflowError
  | f => Ok f
  end.

(** An integer as a float with an unbounded mantissa, the exact operand
    of a correctly rounded operation. *)
Definition exact_int (n : Z) : spec_float :=
  match n with
  | Z0 => S754_zero false
  | Zpos p => S754_finite false p 0
  | Zneg p => S754_finite true p 0
  end.

(** [a / b] on integers: the correctly rounded quotient. *)
Definition int_truediv (a b : Z) : result spec_float :=
  if b =? 0 then Raise ZeroDivisionError
  else match SFdiv prec emax (exact_int a) (exact_int b) with
       | S754_infinity _ => Raise OverflowError
       | f => Ok f
       end.

(** [n * x] for an integer [n] and a float [x]. *)
Definition int_mul_float (n : Z) (x : spec_float) : result spec_float :=
  do nf <- float_of_int n;
  Ok (SFmul prec emax nf x).

(** [math.sqrt(n)] on an integer. *)
Definition math_sqrt (n : Z) : result spec_float :=
  do x <- float_of_int n;
  match x with
  | S754_finite true _ _ => Raise (ValueError "math domain error")
  | _ => Ok (SFsqrt prec emax x)
  end.

(** [math.ceil(x)] on a float. *)
Definition math_ceil (x : spec_float) : result Z :=
  match x with
  | S754_zero _ => Ok 0
  | S754_finite s m e =>
      let v := cond_Zopp s (Zpos m) in
      Ok (if 0 <=? e then v * 2 ^ e else - ((- v) / 2 ^ (- e)))
  | S754_infinity _ => Raise OverflowError
  | S754_nan => Raise (ValueError "cannot convert float NaN to integer")
  end.

(** [int(x)] on a float: truncation toward zero. *)
Definition int_of_float (x : spec_float) : result Z :=
  match x with
  | S754_zero _ => Ok 0
  | S754_finite s m e =>
      let v := cond_Zopp s (Zpos m) in
      Ok (if 0 <=? e then v * 2 ^ e else Z.quot v (2 ^ (- e)))
  | S754_infinity _ => Raise OverflowError
  | S754_nan => Raise (ValueError "cannot convert float NaN to integer")
  end.

(** ** Strings, as Python exposes them

    A [str] is held as its UTF-8 encoding, the form in which the arguments
    reach the program. [code_points] decodes it as the interpreter does,
    with the surrogateescape handler: a byte that is not part of a
    well-formed sequence stands for the lone surrogate U+DC00 + byte.

    [lower] and [upper] change the ASCII letters only. The program only
    compares their results with "auto", "PNG", "JPG" and "JPEG", and no
    character outside ASCII has a lower case made of the letters a, u, t,
    o or an upper case made of the letters P, N, G, J, E, so that these
    comparisons come out as in Python. *)

Definition is_upper (c : ascii) : bool :=
  let n := nat_of_ascii c in (65 <=? n)%nat && (n <=? 90)%nat.

Definition is_lower (c : ascii) : bool :=
  let n := nat_of_ascii c in (97 <=? n)%nat && (n <=? 122)%nat.

Definition is_digit (c : ascii) : bool :=
  let n := nat_of_ascii c in (48 <=? n)%nat && (n <=? 57)%nat.

Definition lower_char (c : ascii) : ascii :=
  if is_upper c then ascii_of_nat (nat_of_ascii c + 32) else c.

Definition upper_char (c : ascii) : ascii :=
  if is_lower c then ascii_of_nat (nat_of_ascii c - 32) else c.

Fixpoint map_string (f : ascii -> ascii) (s : string) : string :=
  match s with
  | EmptyString => EmptyString
  | String c r => String (f c) (map_string f r)
  end.

Definition lower (s : string) : string := map_string lower_char s.
Definition upper (s : string) : string := map_string upper_char s.

(** The value of a byte. *)
Definition ord (c : ascii) : Z := Z.of_N (N_of_ascii c).

Definition continuation (c : ascii) : bool := (128 <=? ord c) && (ord c <? 192).

(** A code point that a sequence of at least [lo] may encode: no overlong
    form, no surrogate, nothing above U+10FFFF. *)
Definition scalar (lo cp : Z) : bool :=
  (lo <=? cp) && (cp <=? 1114111) && negb ((55296 <=? cp) && (cp <=? 57343)).

(** A byte that is not part of a well-formed sequence, as the code point
    Python decodes it to. *)
Definition escape (c : ascii) : Z * string := (56320 + ord c, String c EmptyString).

(** The code points of a string, each with the bytes that encode it. *)
Fixpoint code_points (s : string) : list (Z * string) :=
  match s with
  | EmptyString => []
  | String b0 s1 =>
      if ord b0 <? 128 then (ord b0, String b0 EmptyString) :: code_points s1
      else if (ord b0 <? 192) || (247 <? ord b0) then escape b0 :: code_points s1
      else
        match s1 with
        | EmptyString => escape b0 :: code_points s1
        | String b1 s2 =>
            if negb (continuation b1) then escape b0 :: code_points s1
            else if ord b0 <? 224 then
              let cp := (ord b0 - 192) * 64 + (ord b1 - 128) in
              if scalar 128 cp
              then (cp, String b0 (String b1 EmptyString)) :: code_points s2
              else escape b0 :: code_points s1
            else
              match s2 with
              | EmptyString => escape b0 :: code_points s1
              | String b2 s3 =>
                  if negb (continuation b2) then escape b0 :: code_points s1
                  else if ord b0 <? 240 then
                    let cp := ((ord b0 - 224) * 64 + (ord b1 - 128)) * 64
                              + (ord b2 - 128) in
                    if scalar 2048 cp
                    then (cp, String b0 (String b1 (String b2 EmptyString)))
                           :: code_points s3
                    else escape b0 :: code_points s1
                  else
                    match s3 with
                    | EmptyString => escape b0 :: code_points s1
                    | String b3 s4 =>
                        if negb (continuation b3) then escape b0 :: code_points s1
                        else
                          let cp := (((ord b0 - 240) * 64 + (ord b1 - 128)) * 64
                                     + (ord b2 - 128)) * 64 + (ord b3 - 128) in
                          if scalar 65536 cp
                          then (cp, String b0 (String b1 (String b2 (String b3 EmptyString))))
                                 :: code_points s4
                          else escape b0 :: code_points s1
                    end
              end
        end
  end.

(** The string a list of code points encodes. *)
Definition encoded (cps : list (Z * string)) : string :=
  fold_right (fun c r => (snd c ++ r)%string) EmptyString cps.

(** [str.isspace] on a code point (Py_UNICODE_ISSPACE). *)
Definition is_whitespace (cp : Z) : bool :=
  ((9 <=? cp) && (cp <=? 13)) || ((28 <=? cp) && (cp <=? 32))
  || (cp =? 133) || (cp =? 160) || (cp =? 5760)
  || ((8192 <=? cp) && (cp <=? 8202))
  || (cp =? 8232) || (cp =? 8233) || (cp =? 8239) || (cp =? 8287) || (cp =? 12288).

(** The code points of the digit zero of the decimal digit sets of Unicode
    14.0; the nine code points after each are its digits one to nine. *)
Definition decimal_zeros : list Z :=
  [48; 1632; 1776; 1984; 2406; 2534; 2662; 2790; 2918; 3046; 3174; 3302; 3430;
   3558; 3664; 3792; 3872; 4160; 4240; 6112; 6160; 6470; 6608; 6784; 6800; 6992;
   7088; 7232; 7248; 42528; 43216; 43264; 43472; 43504; 43600; 44016; 65296;
   66720; 68912; 69734; 69872; 69942; 70096; 70384; 70736; 70864; 71248; 71360;
   71472; 71904; 72016; 72784; 73040; 73120; 92768; 92864; 93008; 120782;
   120792; 120802; 120812; 120822; 123200; 123632; 125264; 130032].

(** Py_UNICODE_TODECIMAL: the decimal digit a code point stands for. *)
Definition unicode_decimal (cp : Z) : option Z :=
  match List.find (fun z => (z <=? cp) && (cp <? z + 10)) decimal_zeros with
  | Some z => Some (cp - z)
  | None => None
  end.

Fixpoint lstrip_points (cps : list (Z * string)) : list (Z * string) :=
  match cps with
  | [] => []
  | c :: r => if is_whitespace (fst c) then lstrip_points r else cps
  end.

(** [s.strip()] *)
Definition strip (s : string) : string :=
  encoded (rev (lstrip_points (rev (lstrip_points (code_points s))))).

(** [s.split(sep)] for a one-character separator. *)
Fixpoint split (sep : ascii) (s : string) : list string :=
  match s with
  | EmptyString => [EmptyString]
  | String c r =>
      if Ascii.eqb c sep then EmptyString :: split sep r
      else match split sep r with
           | h :: t => String c h :: t
           | [] => [String c EmptyString]
           end
  end.

Definition ascii_of (cp : Z) : ascii := ascii_of_N (Z.to_N cp).

(** What [int] makes of a str before it parses it: code points below 127
    are kept, whitespace above becomes a blank and a decimal digit its
    ASCII digit; at any other code point the text ends with a question
    mark. *)
Fixpoint to_ascii (cps : list (Z * string)) : string :=
  match cps with
  | [] => EmptyString
  | c :: r =>
      let cp := fst c in
      if cp <? 127 then String (ascii_of cp) (to_ascii r)
      else if is_whitespace cp then String " " (to_ascii r)
      else match unicode_decimal cp with
           | Some d => String (ascii_of (48 + d)) (to_ascii r)
           | None => "?"%string
           end
  end.

(** Py_ISSPACE: the blanks of C. *)
Definition c_isspace (c : ascii) : bool :=
  ((9 <=? ord c) && (ord c <=? 13)) || (ord c =? 32).

Fixpoint skip_spaces (s : string) : string :=
  match s with
  | EmptyString => EmptyString
  | String c r => if c_isspace c then skip_spaces r else s
  end.

(** The run of digits and underscores at the head of a string: its value,
    the number of its digits and what follows it; [None] for a doubled or
    a trailing underscore. *)
Inductive digit_state : Type := AtStart | AfterDigit | AfterUnderscore.

Fixpoint scan_digits (s : string) (st : digit_state) (acc count : Z)
  : option (Z * Z * string) :=
  let stop := match st with
              | AfterUnderscore => None
              | _ => Some (acc, count, s)
              end in
  match s with
  | EmptyString => stop
  | String c r =>
      if is_digit c
      then scan_digits r AfterDigit (10 * acc + (ord c - 48)) (count + 1)
      else if Ascii.eqb c "_"
           then match st with
                | AfterUnderscore => None
                | _ => scan_digits r AfterUnderscore acc count
                end
           else stop
  end.

(** The sign of a literal and what follows it. *)
Definition split_sign (t : string) : bool * string :=
  match t with
  | String c r =>
      if Ascii.eqb c "+" then (false, r)
      else if Ascii.eqb c "-" then (true, r)
      else (false, t)
  | EmptyString => (false, t)
  end.

Definition starts_with (c : ascii) (t : string) : bool :=
  match t with
  | String d _ => Ascii.eqb d c
  | EmptyString => false
  end.

(** [int(s)] on a str, in base 10: blanks, an optional sign, digits with
    single underscores between them, blanks. More digits than the
    interpreter's limit are refused before what follows them is read. *)
Definition int_of_str (E : Env) (s : string) : result Z :=
  let max_digits := int_max_str_digits E in
  let invalid := Raise (ValueError "invalid literal for int() with base 10") in
  let '(negative, t) := split_sign (skip_spaces (to_ascii (code_points s))) in
  if starts_with "_" t then invalid
  else
    match scan_digits t AtStart 0 0 with
    | None => invalid
    | Some (v, digits, rest) =>
        if (640 <? digits) && (0 <? max_digits) && (max_digits <? digits)
        then Raise (ValueError "Exceeds the limit for integer string conversion")
        else if digits =? 0 then invalid
        else match skip_spaces rest with
             | EmptyString => Ok (if negative then - v else v)
             | _ => invalid
             end
    end.

(** ** compute_grid *)

Definition compute_grid (E : Env) (n_pages : Z) (cols : string) : result (Z * Z) :=
  if String.eqb cols "1" then Ok (1, n_pages)
  else if String.eqb (lower cols) "auto" then
    do s <- math_sqrt n_pages;
    do c <- math_ceil s;
    do q <- int_truediv n_pages c;
    do r <- math_ceil q;
    Ok (c, r)
  else
    do v <- int_of_str E cols;
    let c := Z.max 1 v in
    do q <- int_truediv n_pages c;
    do r <- math_ceil q;
    Ok (c, r).

(** ** downscale_if_needed *)

Definition downscale_if_needed (img : Image) (max_width : Z) : result Image :=
  if (max_width <=? 0) || (width img <=? max_width) then Ok img
  else
    do ratio <- int_truediv max_width (width img);
    do scaled <- int_mul_float (height img) ratio;
    do h <- int_of_float scaled;
    Ok (Resampled img max_width (Z.max 1 h)).

(** ** Command-line arguments (the namespace argparse returns) *)

Record Args : Type := {
  args_input : Path;
  args_output : Path;
  args_dpi : Z;
  args_cols : string;
  args_margin : Z;
  args_spacing : Z;
  args_bg : string;
  args_format : string;
  args_both : bool;
  args_formats : string;
  args_suffix : string;
  args_max_width : Z;
  args_quality : Z
}.

(** ** resolve_formats

    The warning printed for an unsupported token is output only and is
    left out. *)

(** The requested tokens, before normalisation. *)
Definition requested_formats (args : Args) : list string :=
  if negb (String.eqb (args_formats args) "") then
    map (fun f => upper (strip f))
        (filter (fun f => negb (String.eqb (strip f) ""))
                (split "," (args_formats args)))
  else if args_both args then ["PNG"; "JPEG"]%string
  else [upper (args_format args)].

(** [["JPEG" if f == "JPG" else f for f in fmts]] *)
Definition normalize_jpg (f : string) : string :=
  if String.eqb f "JPG" then "JPEG"%string else f.

Definition supported (f : string) : bool :=
  String.eqb f "PNG" || String.eqb f "JPEG".

(** One turn of the deduplication loop on its state [(seen, out)]. *)
Definition dedup_step (st : gset string * list string) (f : string)
  : gset string * list string :=
  let '(seen, out) := st in
  if negb (supported f) then st
  else if bool_decide (f ∈ seen) then st
       else ({[f]} ∪ seen, out ++ [f]).

Definition resolve_formats (args : Args) : list string :=
  let fmts := normalize_jpg <$> requested_formats args in
  let '(_, out) := fold_left dedup_step fmts (∅, []) in
  match out with
  | [] => ["PNG"%string]
  | _ => out
  end.

(** ** The batch driver: process_pdf and main

    Effects are recorded as a trace of events, in order. The diagnostic
    printing under [--verbose] is left out. *)

Inductive event : Type :=
| Rendered (pdf : Path) (pages : list Image)              (* render_pdf_pages returned *)
| Composed (pdf : Path) (poster : Image)                  (* make_poster returned *)
| Saved (out_path : Path) (fmt : string) (img : Image)    (* img.save wrote the file *)
| PrintedFound (n : nat) (out_dir : Path) (fmts : list string)  (* "Found n PDF(s). ..." *)
| PrintedOk (pdf : Path) (outs : list Path)               (* "OK: pdf -> names" *)
| PrintedError (pdf : Path) (e : exn)                     (* "ERROR processing pdf: e" *)
| PrintedNoPdfs.                                          (* "No PDFs found. ..." *)

(** A computation that leaves a trace and returns or raises. *)
Definition traced (A : Type) : Type := list event * result A.

Definition tbind {A B : Type} (m : traced A) (k : A -> traced B) : traced B :=
  match m with
  | (t, Ok a) => let '(t', r) := k a in (t ++ t', r)
  | (t, Raise e) => (t, Raise e)
  end.

Definition tret {A : Type} (a : A) : traced A := ([], Ok a).
Definition lift {A : Type} (r : result A) : traced A := ([], r).
Definition emit (ev : event) : traced unit := ([ev], Ok tt).

Notation "'run' x <- m ; k" := (tbind m (fun x => k))
  (at level 10, x name, m at level 100, k at level 200).

Definition render_pdf_pages (E : Env) (pdf_path : Path) (dpi : Z)
  : traced (list Image) :=
  run images <- lift (fitz_pages E pdf_path dpi);
  run _u <- emit (Rendered pdf_path images);
  tret images.

(** Creating the parent directory and writing the file succeed or fail
    together, as the file system decides; a format other than JPEG is
    written as PNG. *)
Definition save_image (E : Env) (img : Image) (out_path : Path) (fmt : string)
  : traced unit :=
  if can_write E out_path
  then emit (Saved out_path (if String.eqb (upper fmt) "JPEG" then "JPEG" else "PNG")%string img)
  else lift (Raise (OSError out_path)).

(** [out_dir / f"{stem}{ext}"] *)
Definition out_file (out_dir : Path) (name : string) : Path :=
  (out_dir ++ "/" ++ name)%string.

Section ProcessPdf.
Variables (E : Env) (pdf_path out_dir : Path) (suffix : string) (poster : Image).

(** The loop [for fmt in fmts] of process_pdf. *)
Fixpoint save_formats (fmts : list string) (out_paths : list Path)
  : traced (list Path) :=
  match fmts with
  | [] => tret out_paths
  | fmt :: rest =>
      let ext := (if String.eqb (upper fmt) "JPEG" then ".jpg" else ".png")%string in
      let stem := (path_stem E pdf_path ++ suffix)%string in
      let out_path := out_file out_dir (stem ++ ext)%string in
      run _u <- save_image E poster out_path (upper fmt);
      save_formats rest (out_paths ++ [out_path])
  end.
End ProcessPdf.

Definition process_pdf (E : Env) (pdf_path out_dir : Path) (dpi : Z)
    (cols_spec : string) (margin spacing : Z) (bg : string)
    (fmts : list string) (suffix : string) (max_width : Z)
  : traced (list Path) :=
  run pages <- render_pdf_pages E pdf_path dpi;
  run grid <- lift (compute_grid E (Z.of_nat (length pages)) cols_spec);
  let '(cols, rows) := grid in
  run poster <- lift (make_poster E pages cols rows margin spacing bg);
  run _u <- emit (Composed pdf_path poster);
  run poster <- lift (downscale_if_needed poster max_width);
  save_formats E pdf_path out_dir suffix poster fmts [].






(** ** Notions used to state the properties *)

(** [m] is the maximum of the list [l]. *)
Definition is_max_of (m : Z) (l : list Z) : Prop :=
  m ∈ l ∧ ∀ x, x ∈ l → x <= m.

(** A rendered page has a positive width and a positive height. *)
Definition page_ok (im : Image) : Prop := 0 < width im ∧ 0 < height im.

(** Where the loop pastes the page of linear index [idx]. *)
Definition placement (cols margin spacing cell_w cell_h : Z) (idx : Z) (im : Image)
  : Image * (Z * Z) :=
  (im, (margin + (idx mod cols) * (cell_w + spacing) + (cell_w - width im) / 2,
        margin + (idx / cols) * (cell_h + spacing) + (cell_h - height im) / 2)).

(** The box of a placed page is made of C ints. *)
Definition placed_fits (p : Image * (Z * Z)) : Prop :=
  box_fits (fst p) (fst (snd p)) (snd (snd p)) = true.

(** The boxes of all the pastes of the loop are made of C ints. *)
Definition pastes_fit (cols margin spacing cell_w cell_h : Z) (images : list Image)
  : Prop :=
  Forall placed_fits
    (imap (fun i => placement cols margin spacing cell_w cell_h (Z.of_nat i)) images).

(** The first occurrences of the elements of a list, in order. *)
Fixpoint first_occurrences (l : list string) : list string :=
  match l with
  | [] => []
  | x :: r => x :: filter (fun y => y <> x) (first_occurrences r)
  end.

(** The string that separates the given fields by commas. *)
Fixpoint join_commas (fields : list string) : string :=
  match fields with
  | [] => EmptyString
  | f :: rest =>
      match rest with
      | [] => f
      | _ => (f ++ "," ++ join_commas rest)%string
      end
  end.

Fixpoint has_char (c : ascii) (s : string) : bool :=
  match s with
  | EmptyString => false
  | String d r => Ascii.eqb d c || has_char c r
  end.

(** The format a token names: PNG, or JPEG under either of its names. *)
Definition format_of (token : string) : option string :=
  if String.eqb token "PNG" then Some "PNG"%string
  else if String.eqb token "JPG" || String.eqb token "JPEG" then Some "JPEG"%string
  else None.

(** The tokens a run asks for: the fields of the comma-separated --formats
    without the whitespace around them, in upper case; without --formats,
    PNG and JPEG under --both and else the legacy --format in upper
    case. *)
Definition asked_for (args : Args) (tokens : list string) : Prop :=
  if String.eqb (args_formats args) "" then
    tokens = (if args_both args then ["PNG"; "JPEG"]%string
              else [upper (args_format args)])
  else
    exists fields,
      fields <> []
      /\ Forall (fun f => has_char "," f = false) fields
      /\ args_formats args = join_commas fields
      /\ tokens = (fun f => upper (strip f)) <$> fields.

(** The formats to write for the named ones: their first occurrences, PNG
    when there is none. *)
Definition formats_for (named : list string) : list string :=
  match named with
  | [] => ["PNG"%string]
  | _ => first_occurrences named
  end.

(** A columns specification that is neither "1" nor "auto" nor an integer. *)
Definition invalid_cols (E : Env) (cols : string) : bool :=
  negb (String.eqb cols "1") && negb (String.eqb (lower cols) "auto")
  && match int_of_str E cols with Ok _ => false | Raise _ => true end.



(** The file process_pdf writes for a document and a format. *)
Definition out_path_for (E : Env) (pdf_path out_dir : Path) (suffix fmt : string)
  : Path :=
  out_file out_dir
    ((path_stem E pdf_path ++ suffix)
       ++ (if String.eqb (upper fmt) "JPEG" then ".jpg" else ".png"))%string.

(** What process_pdf does for a document under the arguments of a run. *)
Definition process_under (E : Env) (args : Args) (pdf : Path) : traced (list Path) :=
  process_pdf E pdf (args_output args) (args_dpi args) (args_cols args)
    (args_margin args) (args_spacing args) (args_bg args) (resolve_formats args)
    (args_suffix args) (args_max_width args).




(** The grid compute_grid is to return for [n] pages in "auto" mode: [c]
    is the smallest integer whose square is at least [n], [r] is the
    ceiling of [n / c], and the grid holds all pages. *)
Definition auto_grid_spec (n c r : Z) : Prop :=
  0 <= c /\ n <= c * c /\ (forall k, 0 <= k -> n <= k * k -> c <= k)
  /\ (r - 1) * c < n <= r * c
  /\ n <= c * r.

(** [k] is an integer nearest to [a / b]. *)
Definition nearest_int (a b k : Z) : Prop := - b <= 2 * (k * b - a) <= b.

(** downscale_if_needed returns width [max_width] and the height
    max(1, round(h * max_width / w)), rounding to nearest. *)
Definition downscale_rounds (img : Image) (max_width : Z) : Prop :=
  exists out k,
    downscale_if_needed img max_width = Ok out
    /\ nearest_int (height img * max_width) (width img) k
    /\ width out = max_width
    /\ height out = Z.max 1 k.

(** ** Notions used to reason about binary64 rounding *)

(** [l] is the position of the fraction [a / b] of [[0, 1)] relative to 1/2. *)
Definition loc_ok (a b : Z) (l : location) : Prop :=
  match l with
  | loc_Exact => a = 0
  | loc_Inexact Lt => 0 < a /\ 2 * a < b
  | loc_Inexact Eq => 2 * a = b
  | loc_Inexact Gt => b < 2 * a
  end.

(** A shift record holds the mantissa [m] and the position of [a / b]. *)
Definition rec_ok (m a b : Z) (mrs : shr_record) : Prop :=
  shr_m mrs = m /\ loc_ok a b (loc_of_shr_record mrs).

(** The float that rounding a mantissa [R] of at most 53 bits (or 2^53
    itself) at exponent [e] yields. *)
Definition rounded (R e : Z) : spec_float :=
  if R =? 2 ^ 53 then S754_finite false (2 ^ 52)%positive (e + 1)
  else S754_finite false (Z.to_pos R) e.

(** A small world for concrete runs: one colour name, an output directory
    that accepts every file, a good three-page document, a corrupt one and
    an empty one, memory for images of up to 2^28 pixels and the
    interpreter's default limit of 4300 digits. *)
Definition demo_pages : list Image :=
  [Pixmap 100 200 0; Pixmap 150 150 1; Pixmap 100 180 2].

Definition demo_env : Env := {|
  getrgb := fun s => if String.eqb s "#FFFFFF" then Some (255, 255, 255) else None;
  fitz_pages := fun pdf _ =>
    if String.eqb pdf "in/good.pdf" then Ok demo_pages
    else if String.eqb pdf "in/empty.pdf" then Ok []
    else Raise (RuntimeError "cannot open broken document");
  can_mkdir := fun _ => true;
  can_write := fun _ => true;
  pdfs_at := fun p =>
    if String.eqb p "in" then ["in/corrupt.pdf"; "in/good.pdf"]%string else [];
  path_stem := fun p =>
    if String.eqb p "in/good.pdf" then "good"%string
    else if String.eqb p "in/corrupt.pdf" then "corrupt"%string else p;
  can_allocate := fun w h => w * h <=? 268435456;
  int_max_str_digits := 4300
|}.

Definition demo_args : Args := {|
  args_input := "in";
  args_output := "out";
  args_dpi := 300;
  args_cols := "auto";
  args_margin := 16;
  args_spacing := 8;
  args_bg := "#FFFFFF";
  args_format := "PNG";
  args_both := false;
  args_formats := "";
  args_suffix := "_poster";
  args_max_width := 0;
  args_quality := 95
|}.


(** The no-break space, U+00A0. *)
Definition no_break_space : string := String "194" (String "160" EmptyString).

(** The fullwidth digit three, U+FF13. *)
Definition fullwidth_three : string :=
  String "239" (String "188" (String "147" EmptyString)).

(** The demo run with a list of formats in mixed case, with blanks (the
    last one a no-break space), an empty field, an unknown format and
    repetitions. *)
Definition mixed_formats_args : Args := {|
  args_input := "in";
  args_output := "out";
  args_dpi := 300;
  args_cols := "auto";
  args_margin := 16;
  args_spacing := 8;
  args_bg := "#FFFFFF";
  args_format := "PNG";
  args_both := false;
  args_formats := " jpg ,PNG,jpeg,,webp,png" ++ no_break_space;
  args_suffix := "_poster";
  args_max_width := 0;
  args_quality := 95
|}.


(** ** Notions used to state further properties *)

(** Two rectangles, given by their top-left corner and their size, do not
    overlap. *)
Definition rect_disjoint (x1 y1 w1 h1 x2 y2 w2 h2 : Z) : Prop :=
  x1 + w1 <= x2 \/ x2 + w2 <= x1 \/ y1 + h1 <= y2 \/ y2 + h2 <= y1.


(** The event of process_pdf writing an image for a format. *)
Definition saved_event (E : Env) (pdf_path out_dir : Path) (suffix : string)
    (img : Image) (fmt : string) : event :=
  Saved (out_path_for E pdf_path out_dir suffix fmt)
        (if String.eqb (upper (upper fmt)) "JPEG" then "JPEG" else "PNG")%string img.

(** The poster of the demo pages on the 2x2 grid of the demo run. *)
Definition demo_poster : Image :=
  Pasted
    (Pasted
       (Pasted (Blank 340 440 (255, 255, 255)) (Pixmap 100 200 0) 41 16)
       (Pixmap 150 150 1) 174 41)
    (Pixmap 100 180 2) 41 234.

(** The demo world with a JPEG file that cannot be written. *)
Definition jpeg_locked_env : Env := {|
  getrgb := getrgb demo_env;
  fitz_pages := fitz_pages demo_env;
  can_mkdir := can_mkdir demo_env;
  can_write := fun p => negb (String.eqb p "out/good_poster.jpg");
  pdfs_at := pdfs_at demo_env;
  path_stem := path_stem demo_env;
  can_allocate := can_allocate demo_env;
  int_max_str_digits := int_max_str_digits demo_env
|}.

(** The demo run with --both. *)
Definition both_args : Args := {|
  args_input := "in";
  args_output := "out";
  args_dpi := 300;
  args_cols := "auto";
  args_margin := 16;
  args_spacing := 8;
  args_bg := "#FFFFFF";
  args_format := "PNG";
  args_both := true;
  args_formats := "";
  args_suffix := "_poster";
  args_max_width := 0;
  args_quality := 95
|}.


(** * Properties *)

(** ** The error monad *)

Lemma bind_Ok {A B : Type} (m : result A) (k : A -> result B) (b : B) :
  bind m k = Ok b -> exists a, m = Ok a /\ k a = Ok b.
Proof. destruct m as [a|e]; simpl; [eauto | discriminate]. Qed.

(** ** Maximum *)

Lemma fold_left_max_ge (xs : list Z) (x : Z) : x <= fold_left Z.max xs x.
Proof.
  revert x. induction xs as [|y ys IH]; intros x; simpl; [lia|].
  specialize (IH (Z.max x y)). lia.
Qed.

Lemma fold_left_max_is_max (xs : list Z) (x : Z) :
  is_max_of (fold_left Z.max xs x) (x :: xs).
Proof.
  revert x. induction xs as [|y ys IH]; intros x; simpl.
  - split; [set_solver|]. intros z Hz. apply list_elem_of_singleton in Hz. lia.
  - destruct (IH (Z.max x y)) as [Hin Hle]. split.
    + apply elem_of_cons in Hin as [Heq | Hin].
      * rewrite Heq. destruct (Z.max_spec x y) as [[_ ->] | [_ ->]]; set_solver.
      * set_solver.
    + intros z Hz. pose proof (fold_left_max_ge ys (Z.max x y)) as Hge.
      apply elem_of_cons in Hz as [Hz | Hz]; [lia|].
      apply elem_of_cons in Hz as [Hz | Hz]; [lia|].
      apply Hle. apply elem_of_cons. by right.
Qed.

Lemma is_max_of_unique (m m' : Z) (l : list Z) :
  is_max_of m l -> is_max_of m' l -> m = m'.
Proof. intros [H1 H2] [H3 H4]. specialize (H2 _ H3). specialize (H4 _ H1). lia. Qed.

Lemma py_max_is_max (l : list Z) (m : Z) :
  is_max_of m l -> py_max l = Ok m.
Proof.
  destruct l as [|x xs]; intros Hm.
  - destruct Hm as [Hin _]. by apply elem_of_nil in Hin.
  - simpl. f_equal. eapply is_max_of_unique; [apply fold_left_max_is_max | exact Hm].
Qed.

Lemma py_max_Ok_is_max (l : list Z) (m : Z) :
  py_max l = Ok m -> is_max_of m l.
Proof.
  destruct l as [|x xs]; simpl; [discriminate|].
  intros [= <-]. apply fold_left_max_is_max.
Qed.

Lemma is_max_of_exists (l : list Z) : l <> [] -> exists m, is_max_of m l.
Proof.
  destruct l as [|x xs]; [congruence|]. intros _.
  exists (fold_left Z.max xs x). apply fold_left_max_is_max.
Qed.

(** ** The paste loop *)

Lemma c_int_spec (z : Z) : c_int z = true <-> - INT_MAX - 1 <= z <= INT_MAX.
Proof. unfold c_int. rewrite andb_true_iff, !Z.leb_le. tauto. Qed.

Lemma box_fits_spec (im : Image) (x y : Z) :
  box_fits im x y = true
  <-> (- INT_MAX - 1 <= x <= INT_MAX) /\ (- INT_MAX - 1 <= y <= INT_MAX)
      /\ (- INT_MAX - 1 <= x + width im <= INT_MAX)
      /\ (- INT_MAX - 1 <= y + height im <= INT_MAX).
Proof. unfold box_fits. rewrite !andb_true_iff, !c_int_spec. tauto. Qed.

(** What the loop has done when it returns. *)
Lemma paste_pages_Ok (cols margin spacing cell_w cell_h : Z)
    (images : list Image) (idx : Z) (poster p : Image) :
  paste_pages cols margin spacing cell_w cell_h images idx poster = Ok p ->
  width p = width poster /\ height p = height poster
  /\ pastes p = pastes poster ++
       imap (fun i => placement cols margin spacing cell_w cell_h (idx + Z.of_nat i)) images
  /\ Forall placed_fits
       (imap (fun i => placement cols margin spacing cell_w cell_h (idx + Z.of_nat i)) images)
  /\ (images <> [] -> cols <> 0).
Proof.
  revert idx poster.
  induction images as [|im rest IH]; intros idx poster; simpl.
  - intros [= <-]. rewrite app_nil_r. repeat split; [constructor | congruence].
  - unfold floordiv, pymod. destruct (Z.eqb_spec cols 0) as [|Hc]; [discriminate|]. simpl.
    unfold Image_paste.
    destruct (box_fits im _ _) eqn:Hfit; [|discriminate]. cbn [bind].
    intros Hp. apply IH in Hp as (Hw & Hh & Hps & Hfits & _).
    simpl in Hw, Hh, Hps.
    assert (Hext : imap (fun i => placement cols margin spacing cell_w cell_h
                                    (idx + 1 + Z.of_nat i)) rest
                   = imap ((fun i => placement cols margin spacing cell_w cell_h
                                       (idx + Z.of_nat i)) ∘ S) rest).
    { apply imap_ext. intros i x _. simpl. f_equal. lia. }
    rewrite Hext in Hps, Hfits.
    repeat split; [exact Hw | exact Hh | | | auto].
    + rewrite Hps, <- app_assoc. f_equal. simpl. unfold placement at 2.
      rewrite Z.add_0_r. reflexivity.
    + constructor; [|exact Hfits].
      unfold placed_fits, placement. cbn [fst snd]. rewrite Z.add_0_r. exact Hfit.
Qed.

(** When the loop returns. *)
Lemma paste_pages_returns (cols margin spacing cell_w cell_h : Z)
    (images : list Image) (idx : Z) (poster : Image) :
  cols <> 0 ->
  Forall placed_fits
    (imap (fun i => placement cols margin spacing cell_w cell_h (idx + Z.of_nat i)) images) ->
  exists p, paste_pages cols margin spacing cell_w cell_h images idx poster = Ok p.
Proof.
  intros Hc. revert idx poster.
  induction images as [|im rest IH]; intros idx poster Hfits; simpl.
  - eauto.
  - unfold floordiv, pymod. destruct (Z.eqb_spec cols 0) as [|_]; [contradiction|]. simpl.
    simpl in Hfits. apply Forall_cons in Hfits as [Hfit Hfits].
    unfold placed_fits, placement in Hfit. cbn [fst snd] in Hfit.
    rewrite Z.add_0_r in Hfit. unfold Image_paste. rewrite Hfit. cbn [bind].
    apply IH.
    rewrite (imap_ext _ ((fun i => placement cols margin spacing cell_w cell_h
                                     (idx + Z.of_nat i)) ∘ S)); [exact Hfits|].
    intros i x _. simpl. f_equal. lia.
Qed.

(** ** make_poster *)

Lemma make_poster_unfold (E : Env) (images : list Image)
    (cols rows margin spacing : Z) (bg : string) (cellW cellH : Z) :
  is_max_of cellW (width <$> images) ->
  is_max_of cellH (height <$> images) ->
  make_poster E images cols rows margin spacing bg =
    do bg_rgb <- match getrgb E bg with
                 | Some c => Ok c
                 | None => Raise (ValueError "unknown color specifier")
                 end;
    do poster <- Image_new E (cols * cellW + (cols - 1) * spacing + 2 * margin)
                             (rows * cellH + (rows - 1) * spacing + 2 * margin) bg_rgb;
    paste_pages cols margin spacing cellW cellH images 0 poster.
Proof.
  intros HW HH. unfold make_poster.
  destruct images as [|im rest].
  - destruct HW as [Hin _]. by apply elem_of_nil in Hin.
  - destruct (getrgb E bg) as [c|]; [|reflexivity].
    cbn [bind]. rewrite (py_max_is_max _ _ HW), (py_max_is_max _ _ HH). reflexivity.
Qed.

Lemma Image_new_Ok (E : Env) (w h : Z) (color : rgb) (img : Image) :
  Image_new E w h color = Ok img ->
  img = Blank w h color
  /\ 0 <= w <= INT_MAX /\ 0 <= h <= INT_MAX /\ can_allocate E w h = true.
Proof.
  unfold Image_new.
  destruct (Z.ltb_spec w 0); [discriminate|].
  destruct (Z.ltb_spec h 0); [discriminate|]. cbn [orb].
  destruct (c_int w) eqn:Hw; [|discriminate].
  destruct (c_int h) eqn:Hh; [|discriminate]. cbn [andb negb].
  destruct (can_allocate E w h); [|discriminate]. cbn [negb].
  intros [= <-]. apply c_int_spec in Hw, Hh. repeat split; lia.
Qed.

Lemma Image_new_returns (E : Env) (w h : Z) (color : rgb) :
  0 <= w <= INT_MAX -> 0 <= h <= INT_MAX -> can_allocate E w h = true ->
  Image_new E w h color = Ok (Blank w h color).
Proof.
  intros Hw Hh Hmem. unfold Image_new.
  destruct (Z.ltb_spec w 0); [lia|].
  destruct (Z.ltb_spec h 0); [lia|]. cbn [orb].
  assert (Hcw : c_int w = true) by (apply c_int_spec; unfold INT_MAX in *; lia).
  assert (Hch : c_int h = true) by (apply c_int_spec; unfold INT_MAX in *; lia).
  rewrite Hcw, Hch, Hmem. reflexivity.
Qed.

(** What a returned composition required of the world. *)
Lemma make_poster_Ok_world (E : Env) (images : list Image)
    (cols rows margin spacing : Z) (bg : string) (cellW cellH : Z) (poster : Image) :
  is_max_of cellW (width <$> images) ->
  is_max_of cellH (height <$> images) ->
  make_poster E images cols rows margin spacing bg = Ok poster ->
  (exists color, getrgb E bg = Some color)
  /\ cols <> 0
  /\ 0 <= cols * cellW + (cols - 1) * spacing + 2 * margin <= INT_MAX
  /\ 0 <= rows * cellH + (rows - 1) * spacing + 2 * margin <= INT_MAX
  /\ can_allocate E (cols * cellW + (cols - 1) * spacing + 2 * margin)
                    (rows * cellH + (rows - 1) * spacing + 2 * margin) = true
  /\ pastes_fit cols margin spacing cellW cellH images.
Proof.
  intros HW HH Hmk. rewrite (make_poster_unfold _ _ _ _ _ _ _ _ _ HW HH) in Hmk.
  destruct (getrgb E bg) as [c|]; [|discriminate]. cbn [bind] in Hmk.
  apply bind_Ok in Hmk as (blank & Hnew & Hmk).
  apply Image_new_Ok in Hnew as (-> & Hw & Hh & Hmem).
  apply paste_pages_Ok in Hmk as (_ & _ & _ & Hfits & Hc).
  split; [eauto|]. split.
  { apply Hc. intros ->. destruct HW as [Hin _]. by apply elem_of_nil in Hin. }
  repeat split; try lia; try exact Hmem.
  unfold pastes_fit.
  rewrite (imap_ext _ (fun i => placement cols margin spacing cellW cellH (0 + Z.of_nat i)));
    [exact Hfits|]. intros i x _. simpl. f_equal.
Qed.

(** What a successful composition looks like. *)
Lemma make_poster_Ok_inv (E : Env) (images : list Image)
    (cols rows margin spacing : Z) (bg : string) (cellW cellH : Z) (poster : Image) :
  cols <> 0 ->
  is_max_of cellW (width <$> images) ->
  is_max_of cellH (height <$> images) ->
  make_poster E images cols rows margin spacing bg = Ok poster ->
  width poster = cols * cellW + (cols - 1) * spacing + 2 * margin
  /\ height poster = rows * cellH + (rows - 1) * spacing + 2 * margin
  /\ pastes poster =
       imap (fun i => placement cols margin spacing cellW cellH (Z.of_nat i)) images.
Proof.
  intros Hc HW HH Hmk. rewrite (make_poster_unfold _ _ _ _ _ _ _ _ _ HW HH) in Hmk.
  apply bind_Ok in Hmk as (c & _ & Hmk).
  apply bind_Ok in Hmk as (blank & Hnew & Hmk).
  apply Image_new_Ok in Hnew as (-> & _).
  apply paste_pages_Ok in Hmk as (Hw & Hh & Hps & _).
  simpl in Hw, Hh, Hps. auto.
Qed.

(** When a composition succeeds. *)
Lemma make_poster_returns (E : Env) (images : list Image)
    (cols rows margin spacing : Z) (bg : string) (color : rgb) (cellW cellH : Z) :
  cols <> 0 ->
  getrgb E bg = Some color ->
  is_max_of cellW (width <$> images) ->
  is_max_of cellH (height <$> images) ->
  0 <= cols * cellW + (cols - 1) * spacing + 2 * margin <= INT_MAX ->
  0 <= rows * cellH + (rows - 1) * spacing + 2 * margin <= INT_MAX ->
  can_allocate E (cols * cellW + (cols - 1) * spacing + 2 * margin)
                 (rows * cellH + (rows - 1) * spacing + 2 * margin) = true ->
  pastes_fit cols margin spacing cellW cellH images ->
  exists poster, make_poster E images cols rows margin spacing bg = Ok poster.
Proof.
  intros Hc Hbg HW HH Hw Hh Hmem Hfits.
  rewrite (make_poster_unfold _ _ _ _ _ _ _ _ _ HW HH), Hbg.
  cbn [bind]. rewrite (Image_new_returns _ _ _ _ Hw Hh Hmem). cbn [bind].
  apply paste_pages_returns; [exact Hc|].
  unfold pastes_fit in Hfits.
  rewrite (imap_ext _ (fun i => placement cols margin spacing cellW cellH (Z.of_nat i)));
    [exact Hfits|]. intros i x _. simpl. f_equal.
Qed.

Lemma is_max_of_pos (f : Image -> Z) (images : list Image) (m : Z) :
  (forall im, im ∈ images -> 0 < f im) -> is_max_of m (f <$> images) -> 0 < m.
Proof.
  intros Hpos [Hin _]. apply list_elem_of_fmap in Hin as (im & -> & Him). auto.
Qed.

Lemma is_max_of_ge (f : Image -> Z) (images : list Image) (m : Z) (im : Image) :
  is_max_of m (f <$> images) -> im ∈ images -> f im <= m.
Proof. intros [_ Hle] Him. apply Hle. apply list_elem_of_fmap. eauto. Qed.

(** A page placed in a cell of the grid lies within the canvas. *)
Lemma placement_in_canvas (cols rows margin spacing cellW cellH idx : Z) (im : Image) :
  1 <= cols -> 0 <= idx < cols * rows ->
  0 <= margin -> 0 <= spacing ->
  0 < width im <= cellW -> 0 < height im <= cellH ->
  let x := fst (snd (placement cols margin spacing cellW cellH idx im)) in
  let y := snd (snd (placement cols margin spacing cellW cellH idx im)) in
  0 <= x /\ 0 <= y
  /\ x + width im <= cols * cellW + (cols - 1) * spacing + 2 * margin
  /\ y + height im <= rows * cellH + (rows - 1) * spacing + 2 * margin.
Proof.
  intros Hc Hidx Hm Hs Hw Hh. unfold placement. cbn [fst snd].
  pose proof (Z.mod_pos_bound idx cols ltac:(lia)) as Hcol.
  assert (Hrow : 0 <= idx / cols < rows).
  { split; [apply Z.div_pos; lia|]. apply Z.div_lt_upper_bound; lia. }
  pose proof (Z.div_mod (cellW - width im) 2 ltac:(lia)) as Hdw.
  pose proof (Z.mod_pos_bound (cellW - width im) 2 ltac:(lia)) as Hmw.
  pose proof (Z.div_mod (cellH - height im) 2 ltac:(lia)) as Hdh.
  pose proof (Z.mod_pos_bound (cellH - height im) 2 ltac:(lia)) as Hmh.
  set (c := idx mod cols) in *. set (r := idx / cols) in *.
  assert (0 <= c * (cellW + spacing)) by (apply Z.mul_nonneg_nonneg; lia).
  assert (0 <= r * (cellH + spacing)) by (apply Z.mul_nonneg_nonneg; lia).
  assert (c * (cellW + spacing) <= (cols - 1) * (cellW + spacing))
    by (apply Z.mul_le_mono_nonneg_r; lia).
  assert (r * (cellH + spacing) <= (rows - 1) * (cellH + spacing))
    by (apply Z.mul_le_mono_nonneg_r; lia).
  lia.
Qed.

(** On a grid that holds all pages and whose canvas Pillow can address,
    every paste can be addressed too. *)
Lemma pastes_fit_in_grid (cols rows margin spacing cellW cellH : Z)
    (images : list Image) :
  Forall page_ok images ->
  1 <= cols -> Z.of_nat (length images) <= cols * rows ->
  0 <= margin -> 0 <= spacing ->
  is_max_of cellW (width <$> images) ->
  is_max_of cellH (height <$> images) ->
  cols * cellW + (cols - 1) * spacing + 2 * margin <= INT_MAX ->
  rows * cellH + (rows - 1) * spacing + 2 * margin <= INT_MAX ->
  pastes_fit cols margin spacing cellW cellH images.
Proof.
  intros Hok Hc Hcells Hm Hs HW HH Hw Hh.
  rewrite Forall_forall in Hok.
  unfold pastes_fit. apply Forall_forall. intros p Hp.
  apply elem_of_lookup_imap in Hp as (i & im & -> & Hi).
  assert (Him : im ∈ images) by (eapply list_elem_of_lookup_2; eauto).
  pose proof (is_max_of_ge width images cellW im HW Him) as Hwle.
  pose proof (is_max_of_ge height images cellH im HH Him) as Hhle.
  destruct (Hok im Him) as [Hwpos Hhpos].
  apply lookup_lt_Some in Hi.
  pose proof (placement_in_canvas cols rows margin spacing cellW cellH (Z.of_nat i) im
                Hc ltac:(lia) Hm Hs ltac:(lia) ltac:(lia)) as Hfit.
  unfold placed_fits. apply box_fits_spec.
  unfold placement in *. cbn [fst snd] in *. unfold INT_MAX in *. lia.
Qed.

(** C6: composing the empty page sequence raises the error of an empty
    input ("No images to compose."), whatever the grid shape and the layout
    parameters are; no poster is returned. *)
Theorem make_poster_empty (E : Env) (cols rows margin spacing : Z) (bg : string) :
  make_poster E [] cols rows margin spacing bg
  = Raise (ValueError "No images to compose.").
Proof. reflexivity. Qed.

(** C1: for a non-empty list of pages of positive sizes, any grid shape
    and a margin and a spacing that are not negative, every poster that
    make_poster returns has width columns*cellW + (columns-1)*spacing +
    2*margin and height rows*cellH + (rows-1)*spacing + 2*margin, cellW
    and cellH being the largest page width and height. make_poster returns
    such a poster whenever the background colour parses, the number of
    columns is not zero, both sides of the canvas are C ints that are not
    negative, Pillow can allocate the canvas and the box of every paste
    is made of C ints. *)
Theorem make_poster_size (E : Env) (images : list Image)
    (cols rows margin spacing : Z) (bg : string) (cellW cellH : Z) :
  images <> [] ->
  Forall page_ok images ->
  0 <= margin -> 0 <= spacing ->
  is_max_of cellW (width <$> images) ->
  is_max_of cellH (height <$> images) ->
  (forall poster,
      make_poster E images cols rows margin spacing bg = Ok poster ->
      width poster = cols * cellW + (cols - 1) * spacing + 2 * margin
      /\ height poster = rows * cellH + (rows - 1) * spacing + 2 * margin)
  /\ (forall color,
        getrgb E bg = Some color ->
        cols <> 0 ->
        0 <= cols * cellW + (cols - 1) * spacing + 2 * margin <= INT_MAX ->
        0 <= rows * cellH + (rows - 1) * spacing + 2 * margin <= INT_MAX ->
        can_allocate E (cols * cellW + (cols - 1) * spacing + 2 * margin)
                       (rows * cellH + (rows - 1) * spacing + 2 * margin) = true ->
        pastes_fit cols margin spacing cellW cellH images ->
        exists poster, make_poster E images cols rows margin spacing bg = Ok poster).
Proof.
  intros _ _ _ _ HW HH. split.
  - intros poster Hp.
    destruct (make_poster_Ok_world _ _ _ _ _ _ _ _ _ _ HW HH Hp) as (_ & Hc & _).
    eapply make_poster_Ok_inv in Hp as (Hw & Hh & _); eauto.
  - intros color Hbg Hc Hw Hh Hmem Hfits. eapply make_poster_returns; eauto.
Qed.

(** The example of the specification: three pages of 100x200, 150x150 and
    100x180 with margin 10, spacing 5 on a 2x2 grid give a 325x425 poster. *)
Lemma make_poster_size_witness :
  exists poster,
    make_poster demo_env demo_pages 2 2 10 5 "#FFFFFF" = Ok poster
    /\ width poster = 325 /\ height poster = 425.
Proof.
  destruct (make_poster_size demo_env demo_pages 2 2 10 5 "#FFFFFF" 150 200)
    as [Hsize Hret].
  - discriminate.
  - repeat constructor.
  - lia.
  - lia.
  - apply py_max_Ok_is_max. reflexivity.
  - apply py_max_Ok_is_max. reflexivity.
  - destruct (Hret (255, 255, 255)) as [poster Hp].
    + reflexivity.
    + discriminate.
    + unfold INT_MAX. lia.
    + unfold INT_MAX. lia.
    + reflexivity.
    + repeat constructor.
    + exists poster. split; [exact Hp | exact (Hsize poster Hp)].
Defined.

(** C8: in every poster that make_poster returns for a non-empty page
    list on a grid of at least one column, the page of linear index idx is
    pasted at row idx div columns and column idx mod columns, at the
    offset that centres it in its cell (floor division by two); the
    paddings on the two sides of a page differ by at most one pixel, the
    smaller one on the left (resp. top). make_poster returns such a poster
    whenever the background colour parses, both sides of the canvas are
    C ints that are not negative, Pillow can allocate the canvas and the
    box of every paste is made of C ints. *)
Theorem make_poster_centered (E : Env) (images : list Image)
    (cols rows margin spacing : Z) (bg : string) (cellW cellH : Z) :
  images <> [] ->
  1 <= cols ->
  is_max_of cellW (width <$> images) ->
  is_max_of cellH (height <$> images) ->
  (forall poster,
      make_poster E images cols rows margin spacing bg = Ok poster ->
      forall (idx : nat) (page : Image),
        images !! idx = Some page ->
        let row := Z.of_nat idx / cols in
        let col := Z.of_nat idx mod cols in
        let x0 := margin + col * (cellW + spacing) in
        let y0 := margin + row * (cellH + spacing) in
        let offX := x0 + (cellW - width page) / 2 in
        let offY := y0 + (cellH - height page) / 2 in
        let left := offX - x0 in
        let right := (x0 + cellW) - (offX + width page) in
        let top := offY - y0 in
        let bottom := (y0 + cellH) - (offY + height page) in
        pastes poster !! idx = Some (page, (offX, offY))
        /\ 0 <= left <= right /\ right - left <= 1
        /\ 0 <= top <= bottom /\ bottom - top <= 1)
  /\ (forall color,
        getrgb E bg = Some color ->
        0 <= cols * cellW + (cols - 1) * spacing + 2 * margin <= INT_MAX ->
        0 <= rows * cellH + (rows - 1) * spacing + 2 * margin <= INT_MAX ->
        can_allocate E (cols * cellW + (cols - 1) * spacing + 2 * margin)
                       (rows * cellH + (rows - 1) * spacing + 2 * margin) = true ->
        pastes_fit cols margin spacing cellW cellH images ->
        exists poster, make_poster E images cols rows margin spacing bg = Ok poster).
Proof.
  intros _ Hc HW HH. split.
  - intros poster Hp idx page Hidx.
    eapply make_poster_Ok_inv in Hp as (_ & _ & Hps); eauto; [|lia].
    assert (Hin : page ∈ images) by (eapply list_elem_of_lookup_2; eauto).
    pose proof (is_max_of_ge width images cellW page HW Hin) as Hwle.
    pose proof (is_max_of_ge height images cellH page HH Hin) as Hhle.
    cbv zeta. split.
    + rewrite Hps, list_lookup_imap, Hidx. reflexivity.
    + pose proof (Z.div_mod (cellW - width page) 2 ltac:(lia)) as Hdw.
      pose proof (Z.mod_pos_bound (cellW - width page) 2 ltac:(lia)) as Hmw.
      pose proof (Z.div_mod (cellH - height page) 2 ltac:(lia)) as Hdh.
      pose proof (Z.mod_pos_bound (cellH - height page) 2 ltac:(lia)) as Hmh.
      lia.
  - intros color Hbg Hw Hh Hmem Hfits.
    eapply make_poster_returns; eauto. lia.
Qed.

(** On the three demo pages: the third page (100x180) goes to row 1,
    column 0 of the 2x2 grid, at offset (35, 225). *)
Lemma make_poster_centered_witness :
  exists poster,
    make_poster demo_env demo_pages 2 2 10 5 "#FFFFFF" = Ok poster
    /\ pastes poster !! 2%nat = Some (Pixmap 100 180 2, (35, 225)).
Proof.
  destruct (make_poster_centered demo_env demo_pages 2 2 10 5 "#FFFFFF" 150 200)
    as [Hplace Hret].
  - discriminate.
  - lia.
  - apply py_max_Ok_is_max. reflexivity.
  - apply py_max_Ok_is_max. reflexivity.
  - destruct (Hret (255, 255, 255)) as [poster Hp].
    + reflexivity.
    + unfold INT_MAX. lia.
    + unfold INT_MAX. lia.
    + reflexivity.
    + repeat constructor.
    + exists poster. split; [exact Hp|].
      apply (Hplace poster Hp 2%nat (Pixmap 100 180 2)). reflexivity.
Defined.

(** C9: for a non-empty list of pages of positive sizes, a margin and a
    spacing that are not negative and a grid of at least one column with
    columns*rows cells for at least all pages, every poster that
    make_poster returns holds every page, pasted entirely within the
    canvas. make_poster returns such a poster whenever the background
    colour parses, neither side of the canvas exceeds the largest C int
    and Pillow can allocate the canvas. *)
Theorem make_poster_in_bounds (E : Env) (images : list Image)
    (cols rows margin spacing : Z) (bg : string) (cellW cellH : Z) :
  images <> [] ->
  Forall page_ok images ->
  0 <= margin -> 0 <= spacing ->
  1 <= cols -> Z.of_nat (length images) <= cols * rows ->
  is_max_of cellW (width <$> images) ->
  is_max_of cellH (height <$> images) ->
  (forall poster,
      make_poster E images cols rows margin spacing bg = Ok poster ->
      (fst <$> pastes poster) = images
      /\ forall page offX offY,
           (page, (offX, offY)) ∈ pastes poster ->
           0 <= offX /\ 0 <= offY
           /\ offX + width page <= width poster
           /\ offY + height page <= height poster)
  /\ (forall color,
        getrgb E bg = Some color ->
        cols * cellW + (cols - 1) * spacing + 2 * margin <= INT_MAX ->
        rows * cellH + (rows - 1) * spacing + 2 * margin <= INT_MAX ->
        can_allocate E (cols * cellW + (cols - 1) * spacing + 2 * margin)
                       (rows * cellH + (rows - 1) * spacing + 2 * margin) = true ->
        exists poster, make_poster E images cols rows margin spacing bg = Ok poster).
Proof.
  intros Hne Hok Hm Hs Hc Hcells HW HH.
  pose proof Hok as Hok'. rewrite Forall_forall in Hok.
  assert (HcW : 0 < cellW) by (eapply is_max_of_pos; [|exact HW]; intros; by apply Hok).
  assert (HcH : 0 < cellH) by (eapply is_max_of_pos; [|exact HH]; intros; by apply Hok).
  assert (Hlen : 0 < Z.of_nat (length images)) by (destruct images; simpl; [done|lia]).
  assert (Hr : 1 <= rows).
  { destruct (Z.leb_spec 1 rows); [assumption|]. exfalso.
    assert (cols * rows <= cols * 0) by (apply Z.mul_le_mono_nonneg_l; lia). lia. }
  split.
  - intros poster Hp.
    eapply make_poster_Ok_inv in Hp as (Hw & Hh & Hps); eauto; [|lia].
    split.
    + rewrite Hps, fmap_imap.
      rewrite (imap_ext _ (const id)); [|reflexivity].
      rewrite imap_const. apply list_fmap_id.
    + intros page offX offY Hin. rewrite Hps in Hin.
      apply elem_of_lookup_imap in Hin as (i & im & Heq & Hi).
      assert (Him : im ∈ images) by (eapply list_elem_of_lookup_2; eauto).
      pose proof (is_max_of_ge width images cellW im HW Him) as Hwle.
      pose proof (is_max_of_ge height images cellH im HH Him) as Hhle.
      destruct (Hok im Him) as [Hwpos Hhpos].
      apply lookup_lt_Some in Hi.
      pose proof (placement_in_canvas cols rows margin spacing cellW cellH (Z.of_nat i) im
                    Hc ltac:(lia) Hm Hs ltac:(lia) ltac:(lia)) as Hfit.
      rewrite <- Heq in Hfit. cbn [fst snd] in Hfit.
      assert (page = im) by (unfold placement in Heq; congruence). subst page.
      rewrite Hw, Hh. exact Hfit.
  - intros color Hbg Hw Hh Hmem.
    assert (0 <= (cols - 1) * spacing) by (apply Z.mul_nonneg_nonneg; lia).
    assert (0 <= (rows - 1) * spacing) by (apply Z.mul_nonneg_nonneg; lia).
    assert (0 <= cols * cellW) by (apply Z.mul_nonneg_nonneg; lia).
    assert (0 <= rows * cellH) by (apply Z.mul_nonneg_nonneg; lia).
    eapply make_poster_returns; eauto; try lia.
    eapply pastes_fit_in_grid; eauto.
Qed.

(** On the three demo pages in a 2x2 grid. *)
Lemma make_poster_in_bounds_witness :
  exists poster,
    make_poster demo_env demo_pages 2 2 10 5 "#FFFFFF" = Ok poster
    /\ (fst <$> pastes poster) = demo_pages
    /\ forall page offX offY,
         (page, (offX, offY)) ∈ pastes poster ->
         0 <= offX /\ 0 <= offY
         /\ offX + width page <= width poster
         /\ offY + height page <= height poster.
Proof.
  destruct (make_poster_in_bounds demo_env demo_pages 2 2 10 5 "#FFFFFF" 150 200)
    as [Hin Hret].
  - discriminate.
  - repeat constructor.
  - lia.
  - lia.
  - lia.
  - simpl. lia.
  - apply py_max_Ok_is_max. reflexivity.
  - apply py_max_Ok_is_max. reflexivity.
  - destruct (Hret (255, 255, 255)) as [poster Hp].
    + reflexivity.
    + unfold INT_MAX. lia.
    + unfold INT_MAX. lia.
    + reflexivity.
    + exists poster. split; [exact Hp | exact (Hin poster Hp)].
Defined.

(** ** downscale_if_needed: the identity cases *)

(** C7: downscale_if_needed returns the very image it was given, without
    resampling, whenever max_width <= 0 or the image is not wider than
    max_width; in particular with max_width = 0. *)
Theorem downscale_identity (img : Image) (max_width : Z) :
  (max_width <= 0 \/ width img <= max_width ->
   downscale_if_needed img max_width = Ok img)
  /\ downscale_if_needed img 0 = Ok img.
Proof.
  assert (H : forall mw, mw <= 0 \/ width img <= mw ->
                         downscale_if_needed img mw = Ok img).
  { intros mw Hmw. unfold downscale_if_needed.
    destruct (Z.leb_spec mw 0); [reflexivity|].
    destruct (Z.leb_spec (width img) mw); [reflexivity|]. lia. }
  split; [apply H|]. apply H. lia.
Qed.

Lemma downscale_identity_witness :
  downscale_if_needed (Pixmap 640 480 0) 800 = Ok (Pixmap 640 480 0)
  /\ downscale_if_needed (Pixmap 640 480 0) 0 = Ok (Pixmap 640 480 0).
Proof.
  destruct (downscale_identity (Pixmap 640 480 0) 800) as [Hid H0].
  split; [|exact H0]. apply Hid. right. simpl. lia.
Defined.

(** ** resolve_formats *)

Lemma supported_iff (f : string) : supported f <-> f = "PNG"%string \/ f = "JPEG"%string.
Proof.
  unfold supported. rewrite orb_True.
  split; (intros [H | H]; [left | right]).
  - apply Is_true_eq_true in H. by apply String.eqb_eq.
  - apply Is_true_eq_true in H. by apply String.eqb_eq.
  - subst. done.
  - subst. done.
Qed.

Lemma first_occurrences_elem_of (l : list string) (f : string) :
  f ∈ first_occurrences l <-> f ∈ l.
Proof.
  induction l as [|x r IH]; simpl; [done|].
  rewrite !elem_of_cons, list_elem_of_filter, IH.
  destruct (decide (f = x)); tauto.
Qed.

Lemma first_occurrences_NoDup (l : list string) : NoDup (first_occurrences l).
Proof.
  induction l as [|x r IH]; simpl; [constructor|].
  constructor; [|by apply NoDup_filter].
  rewrite list_elem_of_filter. tauto.
Qed.

Lemma filter_fresh_nil (l : list string) :
  filter (fun y => y ∉ @nil string) l = l.
Proof.
  induction l as [|x r IH]; [reflexivity|].
  rewrite filter_cons_True by apply not_elem_of_nil. by rewrite IH.
Qed.

(** The loop appends to [out] the first occurrences of the supported
    tokens that [out] does not hold yet. *)
Lemma dedup_loop_spec (l : list string) (seen : gset string) (out : list string) :
  (forall f, f ∈ seen <-> f ∈ out) ->
  snd (fold_left dedup_step l (seen, out))
  = out ++ filter (fun y => y ∉ out) (first_occurrences (filter supported l)).
Proof.
  revert seen out. induction l as [|f r IH]; intros seen out Hseen; simpl.
  - by rewrite app_nil_r.
  - rewrite filter_cons. destruct (decide (supported f)) as [Hs | Hs].
    + apply Is_true_eq_true in Hs. rewrite Hs. cbn [negb].
      simpl. rewrite filter_cons.
      destruct (decide (f ∈ seen)) as [Hin | Hin].
      * rewrite (bool_decide_eq_true_2 _ Hin).
        destruct (decide (f ∉ out)) as [Hno | _];
          [exfalso; apply Hno; by apply Hseen|].
        rewrite (IH seen out Hseen). f_equal.
        rewrite list_filter_filter. apply list_filter_iff.
        intros y. split; [|tauto]. intros Hy. split; [exact Hy|].
        intros ->. apply Hy. by apply Hseen.
      * rewrite (bool_decide_eq_false_2 _ Hin).
        destruct (decide (f ∉ out)) as [_ | Hno];
          [|exfalso; apply Hno; intros Hf; by apply Hin, Hseen].
        rewrite (IH ({[f]} ∪ seen) (out ++ [f])).
        -- rewrite <- app_assoc. simpl. do 2 f_equal.
           rewrite list_filter_filter. apply list_filter_iff.
           intros y. rewrite elem_of_app, list_elem_of_singleton. tauto.
        -- intros y. rewrite elem_of_union, elem_of_singleton, elem_of_app,
             list_elem_of_singleton, Hseen. tauto.
    + apply Is_true_false in Hs. rewrite Hs. cbn [negb]. by apply IH.
Qed.

Lemma split_cons (sep : ascii) (s : string) : exists h t, split sep s = h :: t.
Proof.
  induction s as [|c r IH]; simpl; [eauto|].
  destruct (Ascii.eqb c sep); [eauto|].
  destruct IH as (h & t & ->). eauto.
Qed.

Lemma split_app (sep : ascii) (f s h : string) (t : list string) :
  has_char sep f = false ->
  split sep s = h :: t ->
  split sep (f ++ s) = (f ++ h)%string :: t.
Proof.
  intros Hf Hs. induction f as [|c r IH]; [exact Hs|].
  change (String c r ++ s)%string with (String c (r ++ s)).
  cbn [split has_char] in *.
  apply orb_false_iff in Hf as [Hc Hr].
  rewrite Hc, (IH Hr). reflexivity.
Qed.

Lemma string_app_empty (s : string) : (s ++ "")%string = s.
Proof.
  induction s as [|c r IH]; [reflexivity|].
  change (String c r ++ "")%string with (String c (r ++ "")). by rewrite IH.
Qed.

(** Splitting at commas undoes joining with commas. *)
Lemma split_join_commas (fields : list string) :
  fields <> [] ->
  Forall (fun f => has_char "," f = false) fields ->
  split "," (join_commas fields) = fields.
Proof.
  induction fields as [|f rest IH]; [congruence|]. intros _ Hall.
  apply Forall_cons in Hall as [Hf Hrest]. simpl.
  destruct rest as [|g rest'].
  - rewrite <- (string_app_empty f) at 1.
    rewrite (split_app "," f "" "" [] Hf eq_refl), string_app_empty. reflexivity.
  - rewrite (split_app "," f _ "" (split "," (join_commas (g :: rest'))) Hf).
    + rewrite string_app_empty, IH; [reflexivity | discriminate | exact Hrest].
    + reflexivity.
Qed.

Lemma split_no_comma (s : string) :
  Forall (fun f => has_char "," f = false) (split "," s).
Proof.
  induction s as [|c r IH]; simpl; [repeat constructor|].
  destruct (Ascii.eqb c ",") eqn:Hc; [constructor; [reflexivity | exact IH]|].
  destruct (split "," r) as [|h t]; [repeat constructor; simpl; by rewrite Hc|].
  apply Forall_cons in IH as [Hh Ht]. constructor; [|exact Ht].
  simpl. by rewrite Hc.
Qed.

Lemma join_split_commas (s : string) : join_commas (split "," s) = s.
Proof.
  induction s as [|c r IH]; [reflexivity|]. simpl.
  destruct (Ascii.eqb_spec c ",") as [-> | Hc].
  - destruct (split_cons "," r) as (h & t & Hs). rewrite Hs in *. simpl.
    simpl in IH. by rewrite IH.
  - destruct (split "," r) as [|h t] eqn:Hs.
    + destruct (split_cons "," r) as (h & t & Hs'). congruence.
    + simpl in *. destruct t; simpl in *; by rewrite <- IH.
Qed.

(** Every run asks for some tokens. *)
Lemma asked_for_total (args : Args) : exists tokens, asked_for args tokens.
Proof.
  unfold asked_for. destruct (String.eqb (args_formats args) ""); [eauto|].
  eexists. exists (split "," (args_formats args)).
  split; [|split; [apply split_no_comma | split; [by rewrite join_split_commas | reflexivity]]].
  destruct (split_cons "," (args_formats args)) as (h & t & ->). discriminate.
Qed.

Lemma format_of_supported (l : list string) :
  filter supported (normalize_jpg <$> l) = omap format_of l.
Proof.
  induction l as [|f r IH]; [reflexivity|].
  cbn [fmap list_fmap omap list_omap]. rewrite filter_cons.
  change (list_fmap _ _ normalize_jpg r) with (normalize_jpg <$> r).
  change (list_omap _ _ format_of r) with (omap format_of r).
  rewrite IH. unfold normalize_jpg, format_of, supported.
  destruct (String.eqb_spec f "JPG") as [-> | Hjpg].
  - reflexivity.
  - destruct (String.eqb_spec f "PNG") as [-> | Hpng]; [reflexivity|].
    destruct (String.eqb_spec f "JPEG") as [-> | Hjpeg]; reflexivity.
Qed.

Lemma format_of_nonempty (g : string -> string) (l : list string) :
  omap format_of (map (fun f => upper (g f))
                      (filter (fun f => negb (String.eqb (g f) "")) l))
  = omap format_of ((fun f => upper (g f)) <$> l).
Proof.
  induction l as [|f r IH]; [reflexivity|].
  cbn [fmap list_fmap omap list_omap].
  destruct (String.eqb_spec (g f) "") as [He | Hne].
  - rewrite filter_cons_False.
    + rewrite He. cbn. exact IH.
    + rewrite He. cbn. tauto.
  - rewrite filter_cons_True.
    + cbn [map omap list_omap]. destruct (format_of (upper (g f))); [f_equal|]; exact IH.
    + destruct (String.eqb_spec (g f) ""); [contradiction | exact I].
Qed.

(** The shape of every result. *)
Lemma resolve_formats_shape (args : Args) :
  resolve_formats args <> []
  /\ NoDup (resolve_formats args)
  /\ forall f, f ∈ resolve_formats args -> f = "PNG"%string \/ f = "JPEG"%string.
Proof.
  unfold resolve_formats.
  set (tokens := normalize_jpg <$> requested_formats args).
  pose proof (dedup_loop_spec tokens ∅ []) as Hloop.
  destruct (fold_left dedup_step tokens (∅, [])) as [seen o]. cbn [snd] in Hloop.
  rewrite Hloop by set_solver. cbn [app]. rewrite filter_fresh_nil.
  destruct (first_occurrences (filter supported tokens)) as [|x r] eqn:Hfo.
  - split; [discriminate|]. split; [apply NoDup_singleton|].
    intros f Hf. apply elem_of_cons in Hf as [-> | Hf]; [by left | by apply elem_of_nil in Hf].
  - split; [discriminate|]. split; [rewrite <- Hfo; apply first_occurrences_NoDup|].
    intros f Hf. rewrite <- Hfo in Hf. rewrite first_occurrences_elem_of in Hf.
    apply list_elem_of_filter in Hf as [Hs _]. by apply supported_iff.
Qed.

(** C10: whatever the formats argument, the --both flag and the legacy
    format are, resolve_formats returns the first occurrences, in order, of
    the formats that the tokens asked for name (JPG and JPEG both naming
    JPEG), or exactly [PNG] when no token names a format; the result is
    not empty, has no duplicate and holds only PNG and JPEG. *)
Theorem resolve_formats_spec (args : Args) (tokens : list string) :
  asked_for args tokens ->
  resolve_formats args = formats_for (omap format_of tokens)
  /\ resolve_formats args <> []
  /\ NoDup (resolve_formats args)
  /\ (forall f, f ∈ resolve_formats args -> f = "PNG"%string \/ f = "JPEG"%string).
Proof.
  intros Hask. split; [|apply resolve_formats_shape].
  assert (Hreq : omap format_of (requested_formats args) = omap format_of tokens).
  { unfold asked_for in Hask. unfold requested_formats.
    destruct (String.eqb (args_formats args) ""); cbn [negb].
    - subst tokens. reflexivity.
    - destruct Hask as (fields & Hne & Hnc & Hjoin & ->).
      rewrite Hjoin, (split_join_commas fields Hne Hnc).
      apply format_of_nonempty. }
  unfold resolve_formats.
  pose proof (dedup_loop_spec (normalize_jpg <$> requested_formats args) ∅ []) as Hloop.
  destruct (fold_left dedup_step _ (∅, [])) as [seen o]. cbn [snd] in Hloop.
  rewrite Hloop by set_solver. cbn [app].
  rewrite filter_fresh_nil, format_of_supported, Hreq.
  unfold formats_for. destruct (omap format_of tokens); reflexivity.
Qed.

(** A list of formats in mixed case, with blanks, an empty field, an
    unknown format and repetitions: JPEG, then PNG. *)
Lemma resolve_formats_spec_witness :
  resolve_formats mixed_formats_args = ["JPEG"; "PNG"]%string.
Proof.
  destruct (resolve_formats_spec mixed_formats_args
              ["JPG"; "PNG"; "JPEG"; ""; "WEBP"; "PNG"]%string) as [Hout _].
  - exists [" jpg "; "PNG"; "jpeg"; ""; "webp"; "png" ++ no_break_space]%string.
    split; [discriminate|]. split; [repeat constructor|].
    split; reflexivity.
  - exact Hout.
Defined.

(** ** The batch driver *)

Lemma save_formats_spec (E : Env) (pdf out_dir : Path) (suffix : string)
    (poster : Image) (fmts : list string) (acc : list Path)
    (t : list event) (outs : list Path) :
  save_formats E pdf out_dir suffix poster fmts acc = (t, Ok outs) ->
  outs = acc ++ (out_path_for E pdf out_dir suffix <$> fmts)
  /\ length t = length fmts
  /\ (forall fmt, fmt ∈ fmts ->
        exists tag, Saved (out_path_for E pdf out_dir suffix fmt) tag poster ∈ t).
Proof.
  revert acc t outs. induction fmts as [|fmt rest IH]; intros acc t outs; simpl.
  - unfold tret. intros [= <- <-]. rewrite app_nil_r.
    repeat split. intros fmt Hf. by apply elem_of_nil in Hf.
  - unfold save_image. fold (out_path_for E pdf out_dir suffix fmt).
    destruct (can_write E (out_path_for E pdf out_dir suffix fmt));
      [|simpl; discriminate].
    unfold emit. cbn [tbind].
    destruct (save_formats E pdf out_dir suffix poster rest
                (acc ++ [out_path_for E pdf out_dir suffix fmt])) as [t' r] eqn:Hrest.
    intros [= <- ->].
    apply IH in Hrest as (Houts & Hlen & Hsaved).
    split; [by rewrite Houts, <- app_assoc|]. split; [simpl; by rewrite Hlen|].
    intros f Hf. apply elem_of_cons in Hf as [-> | Hf].
    + eexists. simpl. apply elem_of_cons. by left.
    + destruct (Hsaved f Hf) as [tag Htag]. exists tag. simpl.
      apply elem_of_cons. by right.
Qed.

(** A document that process_pdf handles to the end was rendered, composed
    and written once per format. *)
Lemma process_pdf_Ok (E : Env) (pdf out_dir : Path) (dpi : Z) (cols_spec : string)
    (margin spacing : Z) (bg : string) (fmts : list string) (suffix : string)
    (max_width : Z) (t : list event) (outs : list Path) :
  process_pdf E pdf out_dir dpi cols_spec margin spacing bg fmts suffix max_width
    = (t, Ok outs) ->
  outs = (out_path_for E pdf out_dir suffix <$> fmts)
  /\ exists pages poster final,
       fitz_pages E pdf dpi = Ok pages
       /\ Rendered pdf pages ∈ t /\ Composed pdf poster ∈ t
       /\ downscale_if_needed poster max_width = Ok final
       /\ forall fmt, fmt ∈ fmts ->
            exists tag, Saved (out_path_for E pdf out_dir suffix fmt) tag final ∈ t.
Proof.
  unfold process_pdf, render_pdf_pages, lift, emit, tret.
  destruct (fitz_pages E pdf dpi) as [pages|e] eqn:Hfitz; [|simpl; discriminate].
  cbn [tbind app].
  destruct (compute_grid E (Z.of_nat (length pages)) cols_spec) as [[cols rows]|e];
    [|simpl; discriminate].
  cbn [tbind app].
  destruct (make_poster E pages cols rows margin spacing bg) as [poster|e];
    [|simpl; discriminate].
  cbn [tbind app].
  destruct (downscale_if_needed poster max_width) as [final|e] eqn:Hdown;
    [|simpl; discriminate].
  cbn [tbind app].
  destruct (save_formats E pdf out_dir suffix final fmts []) as [t' r] eqn:Hsave.
  intros [= <- ->].
  apply save_formats_spec in Hsave as (Houts & _ & Hsaved).
  split; [exact Houts|]. exists pages, poster, final.
  split; [reflexivity|]. split; [apply elem_of_cons; by left|].
  split; [apply elem_of_cons; right; apply elem_of_cons; by left|].
  split; [exact Hdown|].
  intros fmt Hf. destruct (Hsaved fmt Hf) as [tag Htag]. exists tag.
  apply elem_of_cons; right. apply elem_of_cons; right. exact Htag.
Qed.

(** int() raises nothing but a ValueError. *)
Lemma int_of_str_raises (E : Env) (s : string) (e : exn) :
  int_of_str E s = Raise e -> exists msg, e = ValueError msg.
Proof.
  unfold int_of_str. destruct (split_sign _) as [negative t].
  intros H. repeat case_match; try discriminate; injection H as <-; eauto.
Qed.










(** ** Rounding to nearest in binary64 *)

Lemma digits2_pos_size (p : positive) : digits2_pos p = Pos.size p.
Proof. induction p; simpl; congruence. Qed.

Lemma Zdigits2_bounds (p : positive) :
  2 ^ (Zdigits2 (Zpos p) - 1) <= Zpos p < 2 ^ Zdigits2 (Zpos p).
Proof.
  simpl. rewrite digits2_pos_size. split.
  - pose proof (Pos.size_le p) as H.
    assert (Hz : 2 ^ Zpos (Pos.size p) <= 2 * Zpos p).
    { rewrite <- Pos2Z.inj_pow. change (2 * Z.pos p) with (Z.pos p~0). lia. }
    replace (Zpos (Pos.size p)) with (Z.succ (Zpos (Pos.size p) - 1)) in Hz by lia.
    rewrite Z.pow_succ_r in Hz by lia. lia.
  - pose proof (Pos.size_gt p) as H. rewrite <- Pos2Z.inj_pow. lia.
Qed.

Lemma Zdigits2_unique (m d : Z) :
  2 ^ (d - 1) <= m < 2 ^ d -> 0 < m -> Zdigits2 m = d.
Proof.
  intros [Hlo Hhi] Hm. destruct m as [|p|p]; try lia.
  pose proof (Zdigits2_bounds p) as [Hlo' Hhi'].
  set (d' := Zdigits2 (Zpos p)) in *.
  assert (0 < d') by (unfold d'; simpl; lia).
  assert (0 < d).
  { destruct (Z.ltb_spec 0 d); [lia|].
    destruct (Z.eq_dec d 0) as [-> | Hd0]; [simpl in Hhi; lia|].
    rewrite Z.pow_neg_r in Hhi by lia. lia. }
  destruct (Z.lt_trichotomy d' d) as [Hlt | [Heq | Hgt]]; [|exact Heq|].
  - assert (2 ^ d' <= 2 ^ (d - 1)) by (apply Z.pow_le_mono_r; lia). lia.
  - assert (2 ^ d <= 2 ^ (d' - 1)) by (apply Z.pow_le_mono_r; lia). lia.
Qed.

(** One shift to the right. *)
Lemma shr_1_ok (m a b : Z) (mrs : shr_record) :
  0 <= m -> 0 <= a < b -> rec_ok m a b mrs ->
  rec_ok (Z.div2 m) (Z.b2z (Z.odd m) * b + a) (2 * b) (shr_1 mrs).
Proof.
  intros Hm Hab [Hmm Hloc]. destruct mrs as [m' r s]. cbn in Hmm. subst m'.
  unfold rec_ok.
  destruct m as [|[p|p|]|p]; try lia;
    destruct r, s; cbn in Hloc |- *; (split; [reflexivity|]); lia.
Qed.

Lemma shr_1_div (m a b : Z) (mrs : shr_record) :
  0 <= m -> 0 <= a < b -> rec_ok m a b mrs ->
  rec_ok (m / 2) ((m mod 2) * b + a) (2 * b) (shr_1 mrs).
Proof.
  intros Hm Hab Hok. rewrite <- Z.div2_div, <- Z.bit0_mod, Z.bit0_odd.
  by apply shr_1_ok.
Qed.

(** Two shifts in a row, by [A] then by [A']. *)
Lemma shift_compose (m a b A A' : Z) :
  0 <= m -> 0 <= a < b -> 0 < A -> 0 < A' ->
  m / A / A' = m / (A * A')
  /\ (m / A) mod A' * (A * b) + (m mod A * b + a) = m mod (A * A') * b + a
  /\ A' * (A * b) = A * A' * b
  /\ 0 <= m / A /\ 0 <= m mod A * b + a < A * b.
Proof.
  intros Hm Hab HA HA'.
  pose proof (Z.mod_pos_bound m A HA) as Hmod.
  split; [apply Z.div_div; lia|].
  split; [rewrite (Z.rem_mul_r m A A') by lia; ring|].
  split; [ring|].
  split; [apply Z.div_pos; lia|]. nia.
Qed.

Lemma iter_shr_ok (k : positive) (m a b : Z) (mrs : shr_record) :
  0 <= m -> 0 <= a < b -> rec_ok m a b mrs ->
  rec_ok (m / 2 ^ Zpos k) (m mod 2 ^ Zpos k * b + a) (2 ^ Zpos k * b)
         (SpecFloat.iter_pos shr_1 k mrs).
Proof.
  revert m a b mrs.
  induction k as [k IH | k IH |]; intros m a b mrs Hm Hab Hok; cbn [SpecFloat.iter_pos].
  - assert (HA : 0 < 2 ^ Zpos k) by (apply Z.pow_pos_nonneg; lia).
    pose proof (shr_1_div m a b mrs Hm Hab Hok) as H1.
    destruct (shift_compose m a b 2 (2 ^ Zpos k) Hm Hab ltac:(lia) HA)
      as (E1 & E2 & E3 & Hm1 & Hab1).
    change (2 * b) with (2 * b) in H1.
    apply IH in H1; [|exact Hm1|exact Hab1].
    rewrite E1, E2, E3 in H1.
    destruct (shift_compose m a b (2 * 2 ^ Zpos k) (2 ^ Zpos k) Hm Hab ltac:(lia) HA)
      as (F1 & F2 & F3 & Hm2 & Hab2).
    apply IH in H1; [|exact Hm2|exact Hab2].
    rewrite F1, F2, F3 in H1.
    replace (2 ^ Zpos k~1) with (2 * 2 ^ Zpos k * 2 ^ Zpos k); [exact H1|].
    change (Zpos k~1) with (Z.succ (2 * Zpos k)).
    rewrite Z.pow_succ_r, Z.pow_twice_r by lia. ring.
  - assert (HA : 0 < 2 ^ Zpos k) by (apply Z.pow_pos_nonneg; lia).
    pose proof (IH m a b mrs Hm Hab Hok) as H1.
    destruct (shift_compose m a b (2 ^ Zpos k) (2 ^ Zpos k) Hm Hab HA HA)
      as (E1 & E2 & E3 & Hm1 & Hab1).
    apply IH in H1; [|exact Hm1|exact Hab1].
    rewrite E1, E2, E3 in H1.
    replace (2 ^ Zpos k~0) with (2 ^ Zpos k * 2 ^ Zpos k); [exact H1|].
    change (Zpos k~0) with (2 * Zpos k).
    by rewrite Z.pow_twice_r.
  - change (2 ^ 1) with 2. by apply shr_1_div.
Qed.

Lemma shr_ok (mrs : shr_record) (e n m a b : Z) :
  0 <= n -> 0 <= m -> 0 <= a < b -> rec_ok m a b mrs ->
  snd (shr mrs e n) = e + n
  /\ rec_ok (m / 2 ^ n) (m mod 2 ^ n * b + a) (2 ^ n * b) (fst (shr mrs e n)).
Proof.
  intros Hn Hm Hab Hok. destruct n as [|k|k]; [| |lia]; cbn [shr fst snd].
  - split; [lia|]. change (2 ^ 0) with 1.
    rewrite Z.div_1_r, Z.mod_1_r, Z.mul_1_l. exact Hok.
  - split; [reflexivity|]. by apply iter_shr_ok.
Qed.

Lemma rec_of_loc_ok (m a b : Z) (l : location) :
  loc_ok a b l -> rec_ok m a b (shr_record_of_loc m l).
Proof. intros Hl. destruct l as [|[]]; split; try reflexivity; exact Hl. Qed.

Lemma round_nearest_even_ok (m a b : Z) (l : location) :
  0 <= a < b -> loc_ok a b l ->
  (round_nearest_even m l = m \/ round_nearest_even m l = m + 1)
  /\ - b <= 2 * (round_nearest_even m l * b - (m * b + a)) <= b.
Proof.
  intros Hab Hl. destruct l as [|[]]; cbn in Hl |- *.
  - split; [by left | nia].
  - destruct (Z.even m); (split; [auto | nia]).
  - split; [by left | nia].
  - split; [by right | nia].
Qed.

(** Rounding to nearest of [(mx + a / b) * 2 ^ ex] for a mantissa of at
    least 53 bits, away from underflow and overflow. *)
Lemma binary_round_aux_ok (mx ex a b : Z) (lx : location) :
  0 < mx -> 0 <= a < b -> loc_ok a b lx ->
  0 <= Zdigits2 mx - 53 ->
  -1074 <= ex + (Zdigits2 mx - 53) ->
  ex + (Zdigits2 mx - 53) + 1 <= 971 ->
  exists R,
    2 ^ 52 <= R <= 2 ^ 53
    /\ - (2 ^ (Zdigits2 mx - 53) * b)
       <= 2 * (R * (2 ^ (Zdigits2 mx - 53) * b) - (mx * b + a))
       <= 2 ^ (Zdigits2 mx - 53) * b
    /\ binary_round_aux prec emax false mx ex lx
       = rounded R (ex + (Zdigits2 mx - 53)).
Proof.
  intros Hmx Hab Hl. set (k := Zdigits2 mx - 53). intros Hk Hlo Hhi.
  unfold binary_round_aux, shr_fexp.
  replace (fexp prec emax (Zdigits2 mx + ex) - ex) with k
    by (unfold fexp, emin, prec, emax, k; lia).
  destruct (shr_ok (shr_record_of_loc mx lx) ex k mx a b Hk ltac:(lia) Hab
              (rec_of_loc_ok mx a b lx Hl)) as [He [Hm1 Hl1]].
  destruct (shr (shr_record_of_loc mx lx) ex k) as [mrs' e'].
  cbn [fst snd] in He, Hm1, Hl1. subst e'.
  assert (Hpk : 0 < 2 ^ k) by (apply Z.pow_pos_nonneg; lia).
  pose proof (Z.mod_pos_bound mx (2 ^ k) Hpk) as Hmod.
  pose proof (Z.div_mod mx (2 ^ k) ltac:(lia)) as Hdm.
  assert (Hm1b : 2 ^ 52 <= mx / 2 ^ k < 2 ^ 53).
  { destruct mx as [|p|p]; try lia.
    pose proof (Zdigits2_bounds p) as [Hdlo Hdhi].
    replace (Zdigits2 (Zpos p)) with (53 + k) in Hdhi by (unfold k; lia).
    replace (Zdigits2 (Zpos p) - 1) with (52 + k) in Hdlo by (unfold k; lia).
    rewrite Z.pow_add_r in Hdlo, Hdhi by lia.
    split; [apply Z.div_le_lower_bound; lia | apply Z.div_lt_upper_bound; lia]. }
  assert (Hab1 : 0 <= mx mod 2 ^ k * b + a < 2 ^ k * b) by nia.
  destruct (round_nearest_even_ok (mx / 2 ^ k) _ _ _ Hab1 Hl1) as [HR Hnear].
  rewrite Hm1. set (R := round_nearest_even (mx / 2 ^ k) (loc_of_shr_record mrs')) in *.
  exists R. split; [lia|]. split; [nia|].
  unfold rounded. destruct (Z.eqb_spec R (2 ^ 53)) as [HR53 | HR53].
  - rewrite HR53. change (Zdigits2 (2 ^ 53)) with 54.
    replace (fexp prec emax (54 + (ex + k)) - (ex + k)) with 1
      by (unfold fexp, emin, prec, emax; lia).
    change (2 ^ 53) with 9007199254740992.
    cbn [shr shr_record_of_loc SpecFloat.iter_pos shr_1 shr_m orb].
    change (2 ^ 52)%positive with 4503599627370496%positive.
    destruct (Z.leb_spec (ex + k + 1) (emax - prec));
      [reflexivity | unfold emax, prec in *; lia].
  - assert (HdR : Zdigits2 R = 53) by (apply Zdigits2_unique; lia).
    rewrite HdR.
    replace (fexp prec emax (53 + (ex + k)) - (ex + k)) with 0
      by (unfold fexp, emin, prec, emax; lia).
    cbn [shr shr_record_of_loc shr_m]. destruct R as [|p|p]; try lia.
    destruct (Z.leb_spec (ex + k) (emax - prec));
      [reflexivity | unfold emax, prec in *; lia].
Qed.

(** ** The Python float operations on integers of at most 53 bits *)

Lemma iter_xO_pow (p k : positive) :
  Zpos (Pos.iter xO p k) = Zpos p * 2 ^ Zpos k.
Proof.
  induction k as [|k IH] using Pos.peano_ind.
  - cbn [Pos.iter]. change (2 ^ 1) with 2. lia.
  - rewrite Pos.iter_succ, Pos2Z.inj_succ, Z.pow_succ_r by lia.
    change (Zpos (Pos.iter xO p k)~0) with (2 * Zpos (Pos.iter xO p k)).
    rewrite IH. ring.
Qed.

(** [float(n)] is exact for an integer of at most 53 bits. *)
Lemma float_of_int_small (n : Z) :
  0 < n < 2 ^ 53 ->
  exists m,
    float_of_int n = Ok (S754_finite false m (Zdigits2 n - 53))
    /\ Zpos m = n * 2 ^ (53 - Zdigits2 n)
    /\ 2 ^ 52 <= Zpos m < 2 ^ 53.
Proof.
  intros [Hn0 Hn]. destruct n as [|p|p]; try lia.
  pose proof (Zdigits2_bounds p) as [Hlo Hhi].
  set (d := Zdigits2 (Zpos p)) in *.
  assert (Hd1 : 1 <= d) by (unfold d; simpl; lia).
  assert (Hd : d <= 53).
  { destruct (Z.leb_spec d 53); [lia|].
    assert (2 ^ 53 <= 2 ^ (d - 1)) by (apply Z.pow_le_mono_r; lia). lia. }
  unfold float_of_int, binary_normalize, binary_round.
  change (Zpos (digits2_pos p)) with d.
  replace (fexp prec emax (d + 0)) with (d - 53)
    by (unfold fexp, emin, prec, emax; lia).
  assert (Hal : exists mz, shl_align p 0 (d - 53) = (mz, d - 53)
                           /\ Zpos mz = Zpos p * 2 ^ (53 - d)).
  { unfold shl_align. rewrite Z.sub_0_r.
    destruct (d - 53) as [|k|k] eqn:Hk; try lia.
    - exists p. replace (53 - d) with 0 by lia. split; [reflexivity | simpl; lia].
    - exists (Pos.iter xO p k). split; [reflexivity|].
      rewrite iter_xO_pow. replace (53 - d) with (Zpos k) by lia. reflexivity. }
  destruct Hal as (mz & -> & Hmz).
  assert (Hmzb : 2 ^ 52 <= Zpos mz < 2 ^ 53).
  { rewrite Hmz.
    replace (2 ^ 52) with (2 ^ (d - 1) * 2 ^ (53 - d))
      by (rewrite <- Z.pow_add_r by lia; f_equal; lia).
    replace (2 ^ 53) with (2 ^ d * 2 ^ (53 - d))
      by (rewrite <- Z.pow_add_r by lia; f_equal; lia).
    assert (0 < 2 ^ (53 - d)) by (apply Z.pow_pos_nonneg; lia). nia. }
  assert (Hdz : Zdigits2 (Zpos mz) = 53) by (apply Zdigits2_unique; lia).
  pose proof (binary_round_aux_ok (Zpos mz) (d - 53) 0 1 loc_Exact) as Hbra.
  rewrite Hdz in Hbra.
  destruct Hbra as (R & HR & Hnear & Hres); [lia | lia | reflexivity | lia | lia | lia |].
  change (2 ^ (53 - 53)) with 1 in Hnear.
  assert (R = Zpos mz) by lia. subst R.
  rewrite Hres. unfold rounded.
  destruct (Z.eqb_spec (Zpos mz) (2 ^ 53)); [lia|].
  replace (d - 53 + (53 - 53)) with (d - 53) by lia.
  exists mz. auto.
Qed.

(** [math.ceil] and [int] of a rounded value with a non-positive exponent. *)
Lemma math_ceil_rounded (R E : Z) :
  2 ^ 52 <= R <= 2 ^ 53 -> E <= 0 ->
  math_ceil (rounded R E) = Ok (- ((- R) / 2 ^ (- E))).
Proof.
  intros HR HE. unfold rounded.
  destruct (Z.eqb_spec R (2 ^ 53)) as [-> | Hne]; unfold math_ceil, cond_Zopp.
  - f_equal. destruct (Z.leb_spec 0 (E + 1)).
    + assert (HE' : E = 0 \/ E = -1) by lia. destruct HE' as [-> | ->]; reflexivity.
    + replace (- E) with (1 + - (E + 1)) by lia.
      rewrite Z.pow_add_r by lia. change (2 ^ 1) with 2.
      change (- 2 ^ 53) with (2 * - Zpos (2 ^ 52)).
      rewrite Z.div_mul_cancel_l; [reflexivity | | lia].
      apply Z.pow_nonzero; lia.
  - assert (HRp : 0 < R) by lia. rewrite Z2Pos.id by exact HRp. f_equal.
    destruct (Z.leb_spec 0 E); [|reflexivity].
    replace E with 0 by lia. change (2 ^ (- 0)) with 1.
    rewrite Z.div_1_r. change (2 ^ 0) with 1. lia.
Qed.

Lemma int_of_float_rounded (R E : Z) :
  2 ^ 52 <= R <= 2 ^ 53 -> E <= 0 ->
  int_of_float (rounded R E) = Ok (R / 2 ^ (- E)).
Proof.
  intros HR HE. unfold rounded.
  destruct (Z.eqb_spec R (2 ^ 53)) as [-> | Hne]; unfold int_of_float, cond_Zopp.
  - f_equal. destruct (Z.leb_spec 0 (E + 1)).
    + assert (HE' : E = 0 \/ E = -1) by lia. destruct HE' as [-> | ->]; reflexivity.
    + replace (- E) with (1 + - (E + 1)) by lia.
      rewrite Z.pow_add_r by lia. change (2 ^ 1) with 2.
      change (2 ^ 53) with (2 * Zpos (2 ^ 52)).
      assert (0 < 2 ^ (- (E + 1))) by (apply Z.pow_pos_nonneg; lia).
      rewrite Z.div_mul_cancel_l by lia.
      apply Z.quot_div_nonneg; lia.
  - assert (HRp : 0 < R) by lia. rewrite Z2Pos.id by exact HRp. f_equal.
    destruct (Z.leb_spec 0 E).
    + replace E with 0 by lia. change (2 ^ (- 0)) with 1.
      rewrite Z.div_1_r. change (2 ^ 0) with 1. lia.
    + assert (0 < 2 ^ (- E)) by (apply Z.pow_pos_nonneg; lia).
      apply Z.quot_div_nonneg; lia.
Qed.

Lemma new_location_ok (c r : Z) :
  0 <= r < c -> loc_ok r c (new_location c r).
Proof.
  intros Hr. unfold new_location, new_location_even, new_location_odd.
  destruct (Z.even c) eqn:Hev.
  - destruct (Z.eqb_spec r 0); [assumption|].
    destruct (Z.compare_spec (2 * r) c); cbn; lia.
  - destruct (Z.eqb_spec r 0); [assumption|].
    assert (Hodd : Z.odd c = true) by (rewrite <- Z.negb_even, Hev; reflexivity).
    apply Z.odd_spec in Hodd as [j Hj].
    destruct (Z.compare_spec (2 * r + 1) c); cbn; lia.
Qed.

Lemma nearest_sqrt_step (q r R : Z) :
  0 <= q -> 0 <= r <= 2 * q ->
  - (2 * q + 1) <= 2 * (R * (2 * q + 1) - (q * (2 * q + 1) + r)) <= 2 * q + 1 ->
  (r <= q -> R = q) /\ (q < r -> R = q + 1).
Proof.
  intros Hq Hr Hnear.
  assert (HR : R <= q - 1 \/ R = q \/ R = q + 1 \/ q + 2 <= R) by lia.
  destruct HR as [HR | [-> | [-> | HR]]].
  - assert (R * (2 * q + 1) <= (q - 1) * (2 * q + 1))
      by (apply Z.mul_le_mono_nonneg_r; lia). lia.
  - split; [reflexivity | lia].
  - split; [lia | reflexivity].
  - assert ((q + 2) * (2 * q + 1) <= R * (2 * q + 1))
      by (apply Z.mul_le_mono_nonneg_r; lia). lia.
Qed.

(** [math.sqrt(n)] for an integer of at most 53 bits: the integer square
    root [q] of [n * 4 ^ t] has 53 bits and is rounded up exactly when the
    remainder exceeds it. *)
Lemma math_sqrt_small (n : Z) :
  0 < n < 2 ^ 53 ->
  let t := 53 - (Zdigits2 n + 1) / 2 in
  let q := Z.sqrt (n * 2 ^ (2 * t)) in
  exists R,
    math_sqrt n = Ok (rounded R (- t))
    /\ 2 ^ 52 <= q < 2 ^ 53
    /\ ((n * 2 ^ (2 * t) <= q * q + q /\ R = q)
        \/ (q * q + q < n * 2 ^ (2 * t) /\ R = q + 1)).
Proof.
  intros Hn t q.
  destruct (float_of_int_small n Hn) as (m & Hf & Hm & Hmb).
  pose proof Hn as [Hn0 _]. destruct n as [|p|p]; try lia.
  pose proof (Zdigits2_bounds p) as [Hlo Hhi].
  set (d := Zdigits2 (Zpos p)) in *.
  assert (Hd1 : 1 <= d) by (unfold d; simpl; lia).
  assert (Hd : d <= 53).
  { destruct (Z.leb_spec d 53); [lia|].
    assert (2 ^ 53 <= 2 ^ (d - 1)) by (apply Z.pow_le_mono_r; lia). lia. }
  assert (Hdz : Zdigits2 (Zpos m) = 53) by (apply Zdigits2_unique; lia).
  unfold math_sqrt. rewrite Hf. cbn [bind SFsqrt]. unfold SFsqrt_core_binary.
  rewrite Hdz.
  replace (Z.min (fexp prec emax (Z.div2 (53 + (d - 53) + 1))) (Z.div2 (d - 53)))
    with (- t)
    by (rewrite !Z.div2_div; unfold fexp, emin, prec, emax, t;
        Z.div_mod_to_equations; lia).
  assert (Ht : 26 <= t <= 52) by (unfold t; Z.div_mod_to_equations; lia).
  assert (Hs : d - 53 - 2 * - t = 52 \/ d - 53 - 2 * - t = 53)
    by (unfold t; Z.div_mod_to_equations; lia).
  assert (Hm' : match d - 53 - 2 * - t with
                | Zpos _ => Z.shiftl (Zpos m) (d - 53 - 2 * - t)
                | Z0 => Zpos m
                | Zneg _ => 0
                end = Zpos p * 2 ^ (2 * t)).
  { destruct (d - 53 - 2 * - t) as [|s|s] eqn:Hseq; try lia.
    rewrite Z.shiftl_mul_pow2 by lia. rewrite Hm, <- Z.mul_assoc, <- Z.pow_add_r by lia.
    do 2 f_equal. lia. }
  rewrite Hm'. set (M := Zpos p * 2 ^ (2 * t)) in *.
  assert (HM : 2 ^ 104 <= M < 2 ^ 106).
  { assert (HM2 : M = Zpos m * 2 ^ (d - 53 + 2 * t)).
    { unfold M. rewrite Hm, <- Z.mul_assoc, <- Z.pow_add_r by lia.
      do 2 f_equal. lia. }
    rewrite HM2. destruct Hs as [Hs | Hs];
      (replace (d - 53 + 2 * t) with (d - 53 - 2 * - t) by lia); rewrite Hs; lia. }
  pose proof (Z.sqrtrem_spec M ltac:(lia)) as Hspec.
  pose proof (Z.sqrtrem_sqrt M) as Hfst. fold q in Hfst.
  destruct (Z.sqrtrem M) as [q' r]. cbn [fst] in Hfst. subst q'.
  destruct Hspec as [HMq Hr].
  assert (Hq : 2 ^ 52 <= q < 2 ^ 53) by (change (2 ^ 104) with (2 ^ 52 * 2 ^ 52) in HM;
    change (2 ^ 106) with (2 ^ 53 * 2 ^ 53) in HM; nia).
  assert (Hdq : Zdigits2 q = 53) by (apply Zdigits2_unique; lia).
  pose proof (binary_round_aux_ok q (- t) r (2 * q + 1)
    (if r =? 0 then loc_Exact else loc_Inexact (if r <=? q then Lt else Gt))) as Hbra.
  rewrite Hdq in Hbra. change (2 ^ (53 - 53)) with 1 in Hbra.
  rewrite !Z.mul_1_l in Hbra.
  destruct Hbra as (R & HR & Hnear & Hres).
  - lia.
  - lia.
  - destruct (Z.eqb_spec r 0); [assumption|].
    destruct (Z.leb_spec r q); cbn; lia.
  - lia.
  - lia.
  - lia.
  - exists R. replace (- t + (53 - 53)) with (- t) in Hres by lia.
    split; [by rewrite Hres|]. split; [exact Hq|].
    destruct (nearest_sqrt_step q r R ltac:(lia) Hr Hnear) as [Hdown Hup].
    destruct (Z.leb_spec r q); [left | right]; split; auto; lia.
Qed.

(** [n / c] for integers of at most 53 bits: the mantissa [R] is a nearest
    integer to [n * 2 ^ (- E) / c]. *)
Lemma int_truediv_small (n c : Z) :
  0 < n < 2 ^ 53 -> 0 < c < 2 ^ 53 ->
  exists R E,
    int_truediv n c = Ok (rounded R E)
    /\ 2 ^ 52 <= R <= 2 ^ 53
    /\ (E = Zdigits2 n - Zdigits2 c - 53 \/ E = Zdigits2 n - Zdigits2 c - 52)
    /\ E <= 0
    /\ - c <= 2 * (R * c - n * 2 ^ (- E)) <= c.
Proof.
  intros [Hn0 Hn] [Hc0 Hc].
  destruct n as [|pn|pn]; try lia. destruct c as [|pc|pc]; try lia.
  pose proof (Zdigits2_bounds pn) as [Hnlo Hnhi].
  pose proof (Zdigits2_bounds pc) as [Hclo Hchi].
  set (d1 := Zdigits2 (Zpos pn)) in *. set (d2 := Zdigits2 (Zpos pc)) in *.
  assert (Hd1 : 1 <= d1 <= 53).
  { split; [unfold d1; simpl; lia|]. destruct (Z.leb_spec d1 53); [lia|].
    assert (2 ^ 53 <= 2 ^ (d1 - 1)) by (apply Z.pow_le_mono_r; lia). lia. }
  assert (Hd2 : 1 <= d2 <= 53).
  { split; [unfold d2; simpl; lia|]. destruct (Z.leb_spec d2 53); [lia|].
    assert (2 ^ 53 <= 2 ^ (d2 - 1)) by (apply Z.pow_le_mono_r; lia). lia. }
  unfold int_truediv. cbn [Z.eqb exact_int SFdiv xorb].
  unfold SFdiv_core_binary. fold d1 d2.
  set (s := 53 + d2 - d1).
  replace (Z.min (fexp prec emax (d1 + 0 - (d2 + 0))) (0 - 0)) with (- s)
    by (unfold fexp, emin, prec, emax, s; lia).
  replace (0 - 0 - - s) with s by lia.
  assert (Hs : 1 <= s <= 105) by (unfold s; lia).
  assert (Hm' : match s with
                | Zpos _ => Z.shiftl (Zpos pn) s
                | Z0 => Zpos pn
                | Zneg _ => 0
                end = Zpos pn * 2 ^ s).
  { destruct s as [|ps|ps] eqn:Hseq; try lia. by rewrite Z.shiftl_mul_pow2. }
  rewrite Hm'. 
  pose proof (Z_div_mod (Zpos pn * 2 ^ s) (Zpos pc) ltac:(lia)) as Hdiv.
  destruct (Z.div_eucl (Zpos pn * 2 ^ s) (Zpos pc)) as [q r].
  destruct Hdiv as [Hqr Hr].
  assert (Hps : 0 < 2 ^ s) by (apply Z.pow_pos_nonneg; lia).
  assert (H52 : 2 ^ 52 * 2 ^ d2 <= Zpos pn * 2 ^ s).
  { replace (2 ^ 52 * 2 ^ d2) with (2 ^ (d1 - 1) * 2 ^ s)
      by (rewrite <- !Z.pow_add_r by lia; f_equal; unfold s; lia).
    apply Z.mul_le_mono_nonneg_r; lia. }
  assert (H54 : Zpos pn * 2 ^ s < 2 ^ 54 * 2 ^ (d2 - 1)).
  { replace (2 ^ 54 * 2 ^ (d2 - 1)) with (2 ^ d1 * 2 ^ s)
      by (rewrite <- !Z.pow_add_r by lia; f_equal; unfold s; lia).
    apply Z.mul_lt_mono_pos_r; lia. }
  assert (Hq : 2 ^ 52 <= q < 2 ^ 54).
  { split.
    - assert (2 ^ 52 * Zpos pc < Zpos pc * (q + 1)); [|nia].
      assert (2 ^ 52 * Zpos pc < 2 ^ 52 * 2 ^ d2)
        by (apply Z.mul_lt_mono_pos_l; lia). lia.
    - assert (Zpos pc * q < 2 ^ 54 * Zpos pc); [|nia].
      assert (2 ^ 54 * 2 ^ (d2 - 1) <= 2 ^ 54 * Zpos pc)
        by (apply Z.mul_le_mono_nonneg_l; lia). lia. }
  assert (Hdq : Zdigits2 q = 53 \/ Zdigits2 q = 54).
  { destruct (Z.ltb_spec q (2 ^ 53)); [left | right]; apply Zdigits2_unique; lia. }
  pose proof (binary_round_aux_ok q (- s) r (Zpos pc) (new_location (Zpos pc) r)) as Hbra.
  destruct Hbra as (R & HR & Hnear & Hres); try lia.
  { by apply new_location_ok. }
  exists R, (- s + (Zdigits2 q - 53)).
  split; [rewrite Hres; unfold rounded; by destruct (R =? 2 ^ 53)|].
  split; [exact HR|]. split; [unfold s; lia|]. split; [lia|].
  destruct Hdq as [Hdq | Hdq]; rewrite Hdq in Hnear |- *.
  - change (2 ^ (53 - 53)) with 1 in Hnear.
    replace (- (- s + (53 - 53))) with s by lia. lia.
  - change (2 ^ (54 - 53)) with 2 in Hnear.
    replace (- (- s + (54 - 53))) with (s - 1) by lia.
    assert (Hs2 : 2 ^ s = 2 * 2 ^ (s - 1)).
    { replace s with (Z.succ (s - 1)) at 1 by lia. rewrite Z.pow_succ_r by lia. reflexivity. }
    lia.
Qed.

(** ** compute_grid in "auto" mode *)

Lemma ceil_div_unique (a b k : Z) :
  0 < b -> (k - 1) * b < a <= k * b -> - ((- a) / b) = k.
Proof.
  intros Hb Hk. rewrite <- (Z.div_unique (- a) b (- k) (k * b - a)); lia.
Qed.

Lemma ceil_div_spec (a b : Z) :
  0 < b -> (- ((- a) / b) - 1) * b < a <= - ((- a) / b) * b.
Proof.
  intros Hb. pose proof (Z.div_mod (- a) b ltac:(lia)) as Hdm.
  pose proof (Z.mod_pos_bound (- a) b Hb) as Hmod. nia.
Qed.

(** The ceiling of the square root: the smallest [k >= 0] with [n <= k * k]. *)
Lemma sqrt_ceil_spec (n : Z) :
  1 <= n ->
  let K := Z.sqrt (n - 1) + 1 in
  1 <= K /\ (K - 1) * (K - 1) < n <= K * K.
Proof.
  intros Hn K. pose proof (Z.sqrt_spec (n - 1) ltac:(lia)) as Hs.
  pose proof (Z.sqrt_nonneg (n - 1)). unfold K.
  replace (Z.sqrt (n - 1) + 1 - 1) with (Z.sqrt (n - 1)) by lia.
  unfold Z.succ in Hs. lia.
Qed.

(** The first half of compute_grid's auto branch: the number of columns. *)
Lemma ceil_sqrt_float (n : Z) :
  1 <= n <= 2 ^ 52 ->
  exists x,
    math_sqrt n = Ok x /\ math_ceil x = Ok (Z.sqrt (n - 1) + 1).
Proof.
  intros Hn.
  destruct (sqrt_ceil_spec n ltac:(lia)) as (HK1 & HKlo & HKhi).
  set (K := Z.sqrt (n - 1) + 1) in *.
  destruct (math_sqrt_small n ltac:(lia)) as (R & Hsqrt & Hq & HRq).
  set (t := 53 - (Zdigits2 n + 1) / 2) in *.
  assert (Ht : 26 <= t <= 52).
  { assert (Hd : 1 <= Zdigits2 n <= 53).
    { destruct n as [|p|p]; try lia. pose proof (Zdigits2_bounds p) as [Hlo Hhi].
      split; [simpl; lia|]. destruct (Z.leb_spec (Zdigits2 (Zpos p)) 53); [lia|].
      assert (2 ^ 53 <= 2 ^ (Zdigits2 (Zpos p) - 1)) by (apply Z.pow_le_mono_r; lia). lia. }
    unfold t. Z.div_mod_to_equations. lia. }
  rewrite Z.pow_twice_r in Hq, HRq.
  set (T := 2 ^ t) in *. set (q := Z.sqrt (n * (T * T))) in *.
  assert (HT : 2 ^ 26 <= T) by (apply Z.pow_le_mono_r; lia).
  assert (HTT : 0 < T * T) by nia.
  pose proof (Z.sqrt_spec (n * (T * T)) ltac:(nia)) as Hqs. fold q in Hqs.
  unfold Z.succ in Hqs.
  assert (Hs26 : K - 1 < 2 ^ 26).
  { destruct (Z.ltb_spec (K - 1) (2 ^ 26)); [assumption|].
    assert (2 ^ 26 * 2 ^ 26 <= (K - 1) * (K - 1)) by (apply Z.mul_le_mono_nonneg; lia).
    change (2 ^ 26 * 2 ^ 26) with (2 ^ 52) in *. lia. }
  exists (rounded R (- t)). split; [exact Hsqrt|].
  assert (HRb : 2 ^ 52 <= R <= 2 ^ 53) by lia.
  rewrite (math_ceil_rounded R (- t) HRb ltac:(lia)). f_equal.
  replace (- - t) with t by lia. fold T.
  apply ceil_div_unique; [lia|].
  destruct (Z.eq_dec n (K * K)) as [Hsq | Hnsq].
  - (* a perfect square: the root is exact *)
    assert (Hq' : q = K * T).
    { unfold q. apply Z.sqrt_unique. unfold Z.succ. rewrite Hsq. nia. }
    assert (HR : R = q) by (rewrite Hsq in HRq; nia).
    rewrite HR, Hq'. nia.
  - assert (Hlt : n < K * K) by lia.
    assert (Hq1 : q < K * T).
    { destruct (Z.ltb_spec q (K * T)); [assumption|].
      assert ((K * T) * (K * T) <= q * q) by (apply Z.mul_le_mono_nonneg; nia).
      assert (n * (T * T) < K * K * (T * T)) by (apply Z.mul_lt_mono_pos_r; lia).
      lia. }
    assert (Hq2 : (K - 1) * T <= q).
    { destruct (Z.leb_spec ((K - 1) * T) q); [assumption|].
      assert ((q + 1) * (q + 1) <= ((K - 1) * T) * ((K - 1) * T))
        by (apply Z.mul_le_mono_nonneg; nia).
      assert ((K - 1) * (K - 1) * (T * T) < n * (T * T))
        by (apply Z.mul_lt_mono_pos_r; lia).
      lia. }
    split; [|lia].
    destruct (Z.eq_dec q ((K - 1) * T)) as [Heq | Hne]; [|lia].
    assert (Hup : q * q + q < n * (T * T)).
    { assert (((K - 1) * (K - 1) + 1) * (T * T) <= n * (T * T))
        by (apply Z.mul_le_mono_nonneg_r; lia).
      assert ((K - 1) * T < T * T) by (apply Z.mul_lt_mono_pos_r; lia).
      rewrite Heq. lia. }
    lia.
Qed.

(** [math.ceil(n / c)] is the exact ceiling of the quotient for integers
    of at most 53 bits. *)
Lemma ceil_truediv_float (n c : Z) :
  0 < n < 2 ^ 53 -> 0 < c < 2 ^ 53 ->
  exists x,
    int_truediv n c = Ok x /\ math_ceil x = Ok (- ((- n) / c)).
Proof.
  intros Hn Hc.
  destruct (int_truediv_small n c Hn Hc) as (R & E & Hdiv & HR & HE & HE0 & Hnear).
  exists (rounded R E). split; [exact Hdiv|].
  rewrite (math_ceil_rounded R E HR HE0). f_equal.
  set (S := 2 ^ (- E)) in *. set (Q := - ((- n) / c)).
  pose proof (ceil_div_spec n c ltac:(lia)) as HQ. fold Q in HQ.
  assert (HS : 0 < S) by (apply Z.pow_pos_nonneg; lia).
  assert (HcS : c < 2 * S).
  { assert (Hd1 : Zdigits2 n <= 53).
    { destruct n as [|p|p]; try lia. pose proof (Zdigits2_bounds p) as [Hlo Hhi].
      destruct (Z.leb_spec (Zdigits2 (Zpos p)) 53); [lia|].
      assert (2 ^ 53 <= 2 ^ (Zdigits2 (Zpos p) - 1)) by (apply Z.pow_le_mono_r; lia). lia. }
    destruct c as [|p|p]; try lia. pose proof (Zdigits2_bounds p) as [Hlo Hhi].
    set (d2 := Zdigits2 (Zpos p)) in *.
    assert (1 <= d2) by (unfold d2; simpl; lia).
    assert (2 ^ (d2 - 1) <= S) by (apply Z.pow_le_mono_r; lia).
    replace d2 with (Z.succ (d2 - 1)) in Hhi by lia.
    rewrite Z.pow_succ_r in Hhi by lia. lia. }
  apply ceil_div_unique; [exact HS|]. split.
  - destruct (Z.ltb_spec ((Q - 1) * S) R); [assumption|]. exfalso.
    assert (R * c <= (Q - 1) * S * c) by (apply Z.mul_le_mono_nonneg_r; lia).
    assert (((Q - 1) * c + 1) * S <= n * S) by (apply Z.mul_le_mono_nonneg_r; lia).
    lia.
  - destruct (Z.leb_spec R (Q * S)); [assumption|]. exfalso.
    assert ((Q * S + 1) * c <= R * c) by (apply Z.mul_le_mono_nonneg_r; lia).
    assert (n * S <= Q * c * S) by (apply Z.mul_le_mono_nonneg_r; lia).
    lia.
Qed.

(** C2, as stated, fails: for n = 2^52 + 1 the square root computed in
    binary64 rounds down to 2^26, and compute_grid returns 2^26 columns,
    whose square is less than n. *)
Lemma compute_grid_auto_counterexample :
  1 <= 2 ^ 52 + 1
  /\ compute_grid demo_env (2 ^ 52 + 1) "auto" = Ok (67108864, 67108865)
  /\ ~ auto_grid_spec (2 ^ 52 + 1) 67108864 67108865.
Proof.
  split; [lia|]. split; [vm_compute; reflexivity|].
  intros (_ & Hsq & _). vm_compute in Hsq. apply Hsq. reflexivity.
Qed.

(** C2, amended: for every n from 1 to 2^52, compute_grid(n, "auto")
    returns (c, r) where c is the smallest integer whose square is at least
    n (c = ceil(sqrt(n))), r = ceil(n / c), and c * r >= n. *)
Theorem compute_grid_auto (E : Env) (n : Z) :
  1 <= n <= 2 ^ 52 ->
  exists c r, compute_grid E n "auto" = Ok (c, r) /\ auto_grid_spec n c r.
Proof.
  intros Hn.
  destruct (sqrt_ceil_spec n ltac:(lia)) as (HK1 & HKlo & HKhi).
  set (K := Z.sqrt (n - 1) + 1) in *.
  destruct (ceil_sqrt_float n Hn) as (x & Hsqrt & Hceil). fold K in Hceil.
  assert (HK53 : K < 2 ^ 53).
  { destruct (Z.ltb_spec K (2 ^ 53)); [assumption|].
    assert (2 ^ 52 * 2 ^ 52 <= (K - 1) * (K - 1)) by (apply Z.mul_le_mono_nonneg; lia).
    change (2 ^ 52 * 2 ^ 52) with (2 ^ 104) in *. lia. }
  destruct (ceil_truediv_float n K ltac:(lia) ltac:(lia)) as (y & Hdiv & Hceil2).
  pose proof (ceil_div_spec n K ltac:(lia)) as Hr.
  exists K, (- ((- n) / K)).
  split.
  { unfold compute_grid.
    change (String.eqb "auto" "1") with false.
    change (String.eqb (lower "auto") "auto") with true. cbv iota.
    rewrite Hsqrt. cbn [bind]. rewrite Hceil. cbn [bind].
    rewrite Hdiv. cbn [bind]. rewrite Hceil2. reflexivity. }
  unfold auto_grid_spec.
  split; [lia|]. split; [lia|]. split.
  { intros k Hk Hnk. destruct (Z.leb_spec K k); [assumption|]. exfalso.
    assert (k * k <= (K - 1) * (K - 1)) by (apply Z.mul_le_mono_nonneg; lia). lia. }
  split; [exact Hr | lia].
Qed.

(** Seven pages: a 3 x 3 grid. *)
Lemma compute_grid_auto_witness :
  exists c r, compute_grid demo_env 7 "auto" = Ok (c, r) /\ auto_grid_spec 7 c r.
Proof. apply (compute_grid_auto demo_env 7). lia. Defined.

(** ** downscale_if_needed: the resize branch *)

Lemma Zdigits2_le_53 (n : Z) : 0 < n < 2 ^ 53 -> 1 <= Zdigits2 n <= 53.
Proof.
  intros Hn. destruct n as [|p|p]; try lia.
  pose proof (Zdigits2_bounds p) as [Hlo Hhi].
  split; [simpl; lia|]. destruct (Z.leb_spec (Zdigits2 (Zpos p)) 53); [lia|].
  assert (2 ^ 53 <= 2 ^ (Zdigits2 (Zpos p) - 1)) by (apply Z.pow_le_mono_r; lia). lia.
Qed.

Lemma Zdigits2_mono (a b : Z) : 0 < a <= b -> Zdigits2 a <= Zdigits2 b.
Proof.
  intros Hab. destruct a as [|pa|pa]; try lia. destruct b as [|pb|pb]; try lia.
  pose proof (Zdigits2_bounds pa) as [Hlo _].
  pose proof (Zdigits2_bounds pb) as [_ Hhi].
  destruct (Z.leb_spec (Zdigits2 (Zpos pa)) (Zdigits2 (Zpos pb))); [assumption|].
  assert (2 ^ Zdigits2 (Zpos pb) <= 2 ^ (Zdigits2 (Zpos pa) - 1)).
  { apply Z.pow_le_mono_r; [lia|]. lia. }
  lia.
Qed.

(** A rounded value as a float with a 53-bit mantissa. *)
Lemma rounded_finite (R E : Z) :
  2 ^ 52 <= R <= 2 ^ 53 ->
  exists m e,
    rounded R E = S754_finite false m e
    /\ 2 ^ 52 <= Zpos m < 2 ^ 53
    /\ ((e = E /\ Zpos m = R) \/ (e = E + 1 /\ 2 * Zpos m = R)).
Proof.
  intros HR. unfold rounded. destruct (Z.eqb_spec R (2 ^ 53)) as [-> | Hne].
  - exists (2 ^ 52)%positive, (E + 1). split; [reflexivity|].
    split; [lia|]. right. split; reflexivity.
  - exists (Z.to_pos R), E. rewrite Z2Pos.id by lia. split; [reflexivity|].
    split; [lia|]. left. split; reflexivity.
Qed.

(** The product of two floats with 53-bit mantissas, away from underflow
    and overflow: the mantissa [R] is a nearest integer to
    [mx * my / 2 ^ k]. *)
Lemma SFmul_ok (mx my : positive) (ex ey : Z) :
  2 ^ 52 <= Zpos mx < 2 ^ 53 -> 2 ^ 52 <= Zpos my < 2 ^ 53 ->
  -1074 <= ex + ey + 52 -> ex + ey + 54 <= 971 ->
  exists R k,
    SFmul prec emax (S754_finite false mx ex) (S754_finite false my ey)
      = rounded R (ex + ey + k)
    /\ (k = 52 \/ k = 53)
    /\ 2 ^ 52 <= R <= 2 ^ 53
    /\ - 2 ^ k <= 2 * (R * 2 ^ k - Zpos mx * Zpos my) <= 2 ^ k.
Proof.
  intros Hx Hy Hlo Hhi. cbn [SFmul xorb].
  set (V := Zpos (mx * my)).
  assert (HV : V = Zpos mx * Zpos my) by reflexivity.
  assert (HVb : 2 ^ 104 <= V < 2 ^ 106).
  { rewrite HV. change (2 ^ 104) with (2 ^ 52 * 2 ^ 52).
    change (2 ^ 106) with (2 ^ 53 * 2 ^ 53). split.
    - apply Z.mul_le_mono_nonneg; lia.
    - apply Z.mul_lt_mono_nonneg; lia. }
  assert (Hd : Zdigits2 V = 105 \/ Zdigits2 V = 106).
  { destruct (Z.ltb_spec V (2 ^ 105)); [left | right]; apply Zdigits2_unique; lia. }
  pose proof (binary_round_aux_ok V (ex + ey) 0 1 loc_Exact) as Hbra.
  destruct Hbra as (R & HR & Hnear & Hres); try lia; [reflexivity|].
  exists R, (Zdigits2 V - 53). split; [exact Hres|].
  split; [lia|]. split; [exact HR|]. rewrite <- HV. lia.
Qed.

Lemma Zdigits2_below (n b : Z) : 0 < n < 2 ^ b -> Zdigits2 n <= b.
Proof.
  intros Hn. destruct n as [|p|p]; try lia.
  pose proof (Zdigits2_bounds p) as [Hlo Hhi].
  destruct (Z.leb_spec (Zdigits2 (Zpos p)) b); [assumption|].
  assert (2 ^ b <= 2 ^ (Zdigits2 (Zpos p) - 1)).
  { apply Z.pow_le_mono_r; lia. }
  lia.
Qed.

(** Truncating a product rounded twice. [my / B] is a nearest multiple of
    [1 / B] to [mw / w], [R2 * P] a nearest multiple of [P] to
    [h * A * my], and [T * P = A * B]: when both rounding errors together
    stay below one unit, [R2 / T] is the floor [X] of [h * mw / w], or one
    less when [w] divides [h * mw]. *)
Lemma trunc_rounded_product (h mw w my A B P T R2 X : Z) :
  0 < w -> 0 <= h -> 0 < A -> 0 < B -> 0 < P -> 0 < T ->
  T * P = A * B ->
  - w <= 2 * (my * w - mw * B) <= w ->
  - P <= 2 * (R2 * P - h * A * my) <= P ->
  X * w <= h * mw < (X + 1) * w ->
  P * w + h * A * w < 2 * (A * B) ->
  X - 1 <= R2 / T <= X /\ (X * w < h * mw -> R2 / T = X).
Proof.
  intros Hw Hh HA HB HP HT HTP HN1 HN2 HX Herr.
  assert (HhA : 0 <= h * A) by (apply Z.mul_nonneg_nonneg; lia).
  assert (HAB : 0 < A * B) by (apply Z.mul_pos_pos; lia).
  assert (HPw : 0 < P * w) by (apply Z.mul_pos_pos; lia).
  assert (HABw : A * B * 1 <= A * B * w) by (apply Z.mul_le_mono_nonneg_l; lia).
  assert (Hup2 : (2 * (R2 * P) - 2 * (h * A * my)) * w <= P * w)
    by (apply Z.mul_le_mono_nonneg_r; lia).
  assert (Hlo2 : - P * w <= (2 * (R2 * P) - 2 * (h * A * my)) * w)
    by (apply Z.mul_le_mono_nonneg_r; lia).
  assert (Hup1 : (2 * (my * w) - 2 * (mw * B)) * (h * A) <= w * (h * A))
    by (apply Z.mul_le_mono_nonneg_r; lia).
  assert (Hlo1 : - w * (h * A) <= (2 * (my * w) - 2 * (mw * B)) * (h * A))
    by (apply Z.mul_le_mono_nonneg_r; lia).
  assert (HXlo : X * w * (A * B) <= h * mw * (A * B))
    by (apply Z.mul_le_mono_nonneg_r; lia).
  assert (HXhi : (h * mw + 1) * (A * B) <= (X + 1) * w * (A * B))
    by (apply Z.mul_le_mono_nonneg_r; lia).
  assert (Hle : R2 / T <= X).
  { assert (R2 / T < X + 1); [|lia].
    apply Z.div_lt_upper_bound; [exact HT|].
    destruct (Z.ltb_spec R2 (T * (X + 1))) as [Hlt | Hge]; [assumption|]. exfalso.
    assert (H : T * (X + 1) * (P * w) <= R2 * (P * w))
      by (apply Z.mul_le_mono_nonneg_r; [lia | assumption]).
    replace (T * (X + 1) * (P * w)) with ((X + 1) * w * (T * P)) in H by ring.
    rewrite HTP in H. clear - H Hup2 Hup1 HXhi Herr. lia. }
  split; [split; [|exact Hle]|].
  - apply Z.div_le_lower_bound; [exact HT|].
    destruct (Z.leb_spec (T * (X - 1)) R2) as [Hge | Hlt]; [assumption|]. exfalso.
    assert (H : R2 * (P * w) < T * (X - 1) * (P * w))
      by (apply Z.mul_lt_mono_pos_r; assumption).
    replace (T * (X - 1) * (P * w)) with ((X - 1) * w * (T * P)) in H by ring.
    rewrite HTP in H. clear - H Hlo2 Hlo1 HXlo Herr HABw. lia.
  - intros HXs.
    assert (HXs' : (X * w + 1) * (A * B) <= h * mw * (A * B))
      by (apply Z.mul_le_mono_nonneg_r; lia).
    assert (Hge : X <= R2 / T); [|lia].
    apply Z.div_le_lower_bound; [exact HT|].
    destruct (Z.leb_spec (T * X) R2) as [Hge | Hlt]; [assumption|]. exfalso.
    assert (H : R2 * (P * w) < T * X * (P * w))
      by (apply Z.mul_lt_mono_pos_r; assumption).
    replace (T * X * (P * w)) with (X * w * (T * P)) in H by ring.
    rewrite HTP in H. clear - H Hlo2 Hlo1 HXs' Herr. lia.
Qed.

(** The height computed by downscale_if_needed, [int(h * (mw / w))], for
    an image of at most 2^51 pixels: the truncated exact quotient, or one
    less when the division is exact. *)
Lemma scaled_height (h mw w : Z) :
  0 < mw < w -> 0 < h -> w * h <= 2 ^ 51 ->
  exists ratio scaled t,
    int_truediv mw w = Ok ratio
    /\ int_mul_float h ratio = Ok scaled
    /\ int_of_float scaled = Ok t
    /\ h * mw / w - 1 <= t <= h * mw / w
    /\ ((h * mw) mod w <> 0 -> t = h * mw / w).
Proof.
  intros Hmw Hh Hpix.
  assert (Hw2 : 2 <= w) by lia.
  assert (Hh50 : 2 * h <= 2 ^ 51).
  { assert (2 * h <= w * h) by (apply Z.mul_le_mono_nonneg_r; lia). lia. }
  assert (Hw51 : w <= 2 ^ 51).
  { assert (w * 1 <= w * h) by (apply Z.mul_le_mono_nonneg_l; lia). lia. }
  destruct (int_truediv_small mw w ltac:(lia) ltac:(lia))
    as (R1 & E1 & Hdiv & HR1 & HE1 & HE10 & Hn1).
  destruct (rounded_finite R1 E1 HR1) as (my & ey & Hfin & Hmy & Hnorm).
  destruct (float_of_int_small h ltac:(lia)) as (mh & Hf & Hmh & Hmhb).
  pose proof (Zdigits2_mono mw w ltac:(lia)) as Hd12.
  pose proof (Zdigits2_below h 51 ltac:(lia)) as Hdh.
  pose proof (Zdigits2_le_53 h ltac:(lia)) as Hdh1.
  pose proof (Zdigits2_le_53 mw ltac:(lia)) as Hdmw.
  pose proof (Zdigits2_le_53 w ltac:(lia)) as Hdw.
  set (dh := Zdigits2 h) in *.
  assert (Hey : -105 <= ey <= -51) by lia.
  destruct (SFmul_ok mh my (dh - 53) ey Hmhb Hmy ltac:(lia) ltac:(lia))
    as (R2 & k & Hmul & Hk & HR2 & Hn2).
  exists (rounded R1 E1), (rounded R2 (dh - 53 + ey + k)),
    (R2 / 2 ^ (- (dh - 53 + ey + k))).
  split; [exact Hdiv|].
  split; [unfold int_mul_float; rewrite Hf; cbn [bind]; by rewrite Hfin, Hmul|].
  split; [apply int_of_float_rounded; [exact HR2 | lia]|].
  set (A := 2 ^ (53 - dh)) in *. set (B := 2 ^ (- ey)).
  set (P := 2 ^ k) in *. set (T := 2 ^ (- (dh - 53 + ey + k))).
  assert (HA : 0 < A) by (apply Z.pow_pos_nonneg; lia).
  assert (HB0 : 0 < B) by (apply Z.pow_pos_nonneg; lia).
  assert (HT : 0 < T) by (apply Z.pow_pos_nonneg; lia).
  assert (HP : 0 < P <= 2 ^ 53).
  { split; [apply Z.pow_pos_nonneg; lia|]. apply Z.pow_le_mono_r; lia. }
  assert (HTP : T * P = A * B).
  { unfold T, P, A, B. rewrite <- !Z.pow_add_r by lia. f_equal. lia. }
  assert (HN1 : - w <= 2 * (Zpos my * w - mw * B) <= w).
  { destruct Hnorm as [[-> <-] | [-> <-]].
    - exact Hn1.
    - replace (2 ^ (- E1)) with (2 * B) in Hn1.
      + clear - Hn1. lia.
      + unfold B. replace (- E1) with (Z.succ (- (E1 + 1))) by lia.
        rewrite Z.pow_succ_r by lia. reflexivity. }
  assert (HB : 2 ^ 52 <= B).
  { destruct (Z.leb_spec (2 ^ 52) B) as [Hge | Hlt]; [assumption|]. exfalso.
    assert (H1 : mw * B <= (w - 1) * (2 ^ 52 - 1)) by (apply Z.mul_le_mono_nonneg; lia).
    assert (H2 : 2 ^ 52 * w <= Zpos my * w) by (apply Z.mul_le_mono_nonneg_r; lia).
    clear - H1 H2 HN1 Hw2. lia. }
  assert (Herr : P * w + h * A * w < 2 * (A * B)).
  { assert (H1 : P * w <= 2 * (h * A) * w) by (apply Z.mul_le_mono_nonneg_r; lia).
    assert (H2 : 3 * (w * h) * A < 2 * B * A) by (apply Z.mul_lt_mono_pos_r; lia).
    clear - H1 H2. lia. }
  assert (HX : h * mw / w * w <= h * mw < (h * mw / w + 1) * w).
  { pose proof (Z.div_mod (h * mw) w ltac:(lia)) as Hdm.
    pose proof (Z.mod_pos_bound (h * mw) w ltac:(lia)) as Hmod.
    clear - Hdm Hmod. lia. }
  rewrite Hmh in Hn2.
  destruct (trunc_rounded_product h mw w (Zpos my) A B P T R2 (h * mw / w))
    as [Hbounds Hexact]; try assumption; try lia.
  split; [exact Hbounds|].
  intros Hrem. apply Hexact.
  pose proof (Z.div_mod (h * mw) w ltac:(lia)) as Hdm.
  pose proof (Z.mod_pos_bound (h * mw) w ltac:(lia)) as Hmod.
  clear - Hdm Hmod Hrem. lia.
Qed.

(** C3, as stated, fails: a 4x5 image downscaled to width 3 gets the
    height int(3.75) = 3, while 15/4 rounded to nearest is 4. *)
Lemma downscale_counterexample :
  0 < 3 < width (Pixmap 4 5 0)
  /\ downscale_if_needed (Pixmap 4 5 0) 3 = Ok (Resampled (Pixmap 4 5 0) 3 3)
  /\ ~ downscale_rounds (Pixmap 4 5 0) 3.
Proof.
  split; [simpl; lia|]. split; [vm_compute; reflexivity|].
  intros (out & k & Hout & Hk & _ & Hh).
  vm_compute in Hout. injection Hout as <-.
  unfold nearest_int in Hk. simpl in Hk, Hh. lia.
Qed.

(** C3, amended: for an image of at most 2^51 pixels and
    0 < max_width < width, downscale_if_needed returns the image resampled
    to width max_width and height max(1, t), where t is the binary64
    product h * (max_width / w) truncated toward zero (not rounded to
    nearest): t is the floor of h * max_width / w, or, only when w divides
    h * max_width, possibly one less. *)
Theorem downscale_truncates (img : Image) (max_width : Z) :
  0 < max_width < width img ->
  0 < height img ->
  width img * height img <= 2 ^ 51 ->
  exists t,
    downscale_if_needed img max_width
      = Ok (Resampled img max_width (Z.max 1 t))
    /\ height img * max_width / width img - 1 <= t
         <= height img * max_width / width img
    /\ ((height img * max_width) mod width img <> 0 ->
        t = height img * max_width / width img).
Proof.
  intros Hmw Hh Hpix.
  destruct (scaled_height (height img) max_width (width img) Hmw Hh Hpix)
    as (ratio & scaled & t & Hdiv & Hmul & Hint & Hb & Hex).
  exists t. split; [|split; assumption].
  unfold downscale_if_needed.
  destruct (Z.leb_spec max_width 0); [lia|].
  destruct (Z.leb_spec (width img) max_width); [lia|].
  cbn [orb]. rewrite Hdiv. cbn [bind]. rewrite Hmul. cbn [bind].
  rewrite Hint. reflexivity.
Qed.

(** A 4x5 image at max_width 3 becomes 3x3. *)
Lemma downscale_truncates_witness :
  exists t,
    downscale_if_needed (Pixmap 4 5 0) 3 = Ok (Resampled (Pixmap 4 5 0) 3 (Z.max 1 t))
    /\ 5 * 3 / 4 - 1 <= t <= 5 * 3 / 4
    /\ ((5 * 3) mod 4 <> 0 -> t = 5 * 3 / 4).
Proof.
  apply (downscale_truncates (Pixmap 4 5 0) 3).
  - simpl. lia.
  - simpl. lia.
  - simpl. lia.
Defined.

(** The quotient can come out one less when the division is exact: a
    98x98 image at max_width 2 gets height 1, since 2/98 rounds below its
    value and 98 times that is just under 2. *)
Example downscale_exact_quotient_one_less :
  downscale_if_needed (Pixmap 98 98 0) 2 = Ok (Resampled (Pixmap 98 98 0) 2 1).
Proof. vm_compute. reflexivity. Qed.

(** * Further properties of the code *)

(** ** compute_grid in all modes *)

Lemma compute_grid_auto_value (E : Env) (n : Z) :
  1 <= n <= 2 ^ 52 ->
  compute_grid E n "auto"
  = Ok (Z.sqrt (n - 1) + 1, - ((- n) / (Z.sqrt (n - 1) + 1))).
Proof.
  intros Hn.
  destruct (sqrt_ceil_spec n ltac:(lia)) as (HK1 & HKlo & HKhi).
  set (K := Z.sqrt (n - 1) + 1) in *.
  destruct (ceil_sqrt_float n Hn) as (x & Hsqrt & Hceil). fold K in Hceil.
  assert (HK53 : K < 2 ^ 53).
  { destruct (Z.ltb_spec K (2 ^ 53)); [assumption|].
    assert (2 ^ 52 * 2 ^ 52 <= (K - 1) * (K - 1)) by (apply Z.mul_le_mono_nonneg; lia).
    change (2 ^ 52 * 2 ^ 52) with (2 ^ 104) in *. lia. }
  destruct (ceil_truediv_float n K ltac:(lia) ltac:(lia)) as (y & Hdiv & Hceil2).
  unfold compute_grid.
  change (String.eqb "auto" "1") with false.
  change (String.eqb (lower "auto") "auto") with true. cbv iota.
  rewrite Hsqrt. cbn [bind]. rewrite Hceil. cbn [bind].
  rewrite Hdiv. cbn [bind]. rewrite Hceil2. reflexivity.
Qed.

(** "AUTO", "Auto", ... are read as "auto". *)
Lemma compute_grid_auto_any_case (E : Env) (n : Z) (cols : string) :
  lower cols = "auto"%string -> compute_grid E n cols = compute_grid E n "auto".
Proof.
  intros Hl. unfold compute_grid. rewrite Hl.
  destruct (String.eqb_spec cols "1") as [-> | _]; [discriminate|].
  reflexivity.
Qed.

Lemma compute_grid_explicit_value (E : Env) (n v : Z) (cols : string) :
  0 < n < 2 ^ 53 ->
  int_of_str E cols = Ok v -> v < 2 ^ 53 ->
  lower cols <> "auto"%string ->
  compute_grid E n cols = Ok (Z.max 1 v, - ((- n) / Z.max 1 v)).
Proof.
  intros Hn Hv Hv53 Hauto. unfold compute_grid.
  destruct (String.eqb_spec cols "1") as [-> | _].
  - vm_compute in Hv. injection Hv as <-. cbn [Z.max Z.compare Pos.compare Pos.compare_cont].
    change (Z.max 1 1) with 1. rewrite Z.div_1_r. f_equal. f_equal. lia.
  - destruct (String.eqb_spec (lower cols) "auto") as [Heq | _]; [contradiction|].
    rewrite Hv. cbn [bind].
    destruct (ceil_truediv_float n (Z.max 1 v) Hn ltac:(lia)) as (y & Hdiv & Hceil).
    rewrite Hdiv. cbn [bind]. rewrite Hceil. reflexivity.
Qed.

(** No spelling of "auto" is an integer literal. *)
Lemma int_of_str_auto (E : Env) (cols : string) :
  lower cols = "auto"%string ->
  int_of_str E cols = Raise (ValueError "invalid literal for int() with base 10").
Proof.
  intros Hl. destruct cols as [|c1 [|c2 [|c3 [|c4 [|c5 rest]]]]]; try discriminate.
  cbn [lower map_string] in Hl. injection Hl as H1 H2 H3 H4.
  destruct c1 as [[] [] [] [] [] [] [] []]; vm_compute in H1; try discriminate H1; clear H1;
    (destruct c2 as [[] [] [] [] [] [] [] []]; vm_compute in H2; try discriminate H2; clear H2);
    (destruct c3 as [[] [] [] [] [] [] [] []]; vm_compute in H3; try discriminate H3; clear H3);
    (destruct c4 as [[] [] [] [] [] [] [] []]; vm_compute in H4; try discriminate H4; clear H4);
    vm_compute; reflexivity.
Qed.

(** The grid compute_grid returns for a valid columns specification. *)
Lemma compute_grid_valid (E : Env) (n : Z) (cols : string) :
  1 <= n <= 2 ^ 52 ->
  lower cols = "auto"%string \/ (exists v, int_of_str E cols = Ok v /\ v < 2 ^ 53) ->
  exists c r,
    compute_grid E n cols = Ok (c, r)
    /\ 1 <= c /\ 1 <= r /\ n <= c * r /\ (r - 1) * c < n.
Proof.
  intros Hn [Hauto | (v & Hv & Hv53)].
  - rewrite (compute_grid_auto_any_case E n cols Hauto), (compute_grid_auto_value E n Hn).
    destruct (sqrt_ceil_spec n ltac:(lia)) as (HK1 & HKlo & HKhi).
    set (K := Z.sqrt (n - 1) + 1) in *.
    pose proof (ceil_div_spec n K ltac:(lia)) as Hr.
    exists K, (- ((- n) / K)). split; [reflexivity|].
    split; [lia|]. split; [nia|]. split; [lia | apply Hr].
  - assert (Hna : lower cols <> "auto"%string).
    { intros Ha. rewrite (int_of_str_auto E cols Ha) in Hv. discriminate. }
    rewrite (compute_grid_explicit_value E n v cols ltac:(lia) Hv Hv53 Hna).
    pose proof (ceil_div_spec n (Z.max 1 v) ltac:(lia)) as Hr.
    exists (Z.max 1 v), (- ((- n) / Z.max 1 v)). split; [reflexivity|].
    split; [lia|]. split; [nia|]. split; [lia | apply Hr].
Qed.

(** X1: an explicit columns specification that parses as an integer v
    (below 2^53) gives max(1, v) columns and ceil(n / columns) rows, for
    every page count n from 1 to 2^53 - 1: a zero or negative number of
    columns is clamped to one column. *)
Theorem compute_grid_explicit (E : Env) (n v : Z) (cols : string) :
  0 < n < 2 ^ 53 ->
  int_of_str E cols = Ok v -> v < 2 ^ 53 ->
  exists c r,
    compute_grid E n cols = Ok (c, r)
    /\ c = Z.max 1 v
    /\ (r - 1) * c < n <= r * c.
Proof.
  intros Hn Hv Hv53.
  assert (Hna : lower cols <> "auto"%string).
  { intros Ha. rewrite (int_of_str_auto E cols Ha) in Hv. discriminate. }
  rewrite (compute_grid_explicit_value E n v cols Hn Hv Hv53 Hna).
  exists (Z.max 1 v), (- ((- n) / Z.max 1 v)). split; [reflexivity|].
  split; [reflexivity|]. apply ceil_div_spec. lia.
Qed.

(** Seven pages in three columns, in "-2" columns, and in three columns
    written with the fullwidth digit three between blanks. *)
Lemma compute_grid_explicit_witness :
  (exists c r, compute_grid demo_env 7 "3" = Ok (c, r) /\ c = Z.max 1 3
               /\ (r - 1) * c < 7 <= r * c)
  /\ (exists c r, compute_grid demo_env 7 "-2" = Ok (c, r) /\ c = Z.max 1 (-2)
                  /\ (r - 1) * c < 7 <= r * c)
  /\ (exists c r, compute_grid demo_env 7 (" " ++ fullwidth_three ++ no_break_space)
                    = Ok (c, r)
                  /\ c = Z.max 1 3 /\ (r - 1) * c < 7 <= r * c).
Proof.
  split; [|split].
  - apply (compute_grid_explicit demo_env 7 3 "3"); [lia | reflexivity | lia].
  - apply (compute_grid_explicit demo_env 7 (-2) "-2"); [lia | reflexivity | lia].
  - apply (compute_grid_explicit demo_env 7 3 (" " ++ fullwidth_three ++ no_break_space));
      [lia | reflexivity | lia].
Defined.

(** X2: for every page count from 1 to 2^52 and every columns
    specification that is "auto" in any letter case or an integer literal
    below 2^53 (so also "1"), compute_grid returns a grid of at least one
    column and one row that holds all pages and whose last row is not
    empty. *)
Theorem compute_grid_covers (E : Env) (n : Z) (cols : string) :
  1 <= n <= 2 ^ 52 ->
  lower cols = "auto"%string \/ (exists v, int_of_str E cols = Ok v /\ v < 2 ^ 53) ->
  exists c r,
    compute_grid E n cols = Ok (c, r)
    /\ 1 <= c /\ 1 <= r /\ n <= c * r /\ (r - 1) * c < n.
Proof. apply compute_grid_valid. Qed.

Lemma compute_grid_covers_witness :
  exists c r,
    compute_grid demo_env 7 "AUTO" = Ok (c, r)
    /\ 1 <= c /\ 1 <= r /\ 7 <= c * r /\ (r - 1) * c < 7.
Proof.
  apply (compute_grid_covers demo_env 7 "AUTO"); [lia | left; reflexivity].
Defined.

(** ** make_poster: when it returns, and how the pages lie *)

(** X3: make_poster returns a poster exactly when there is at least one
    page, the background colour parses, the number of columns is not zero,
    both sides of the canvas computed from the largest page are C ints
    that are not negative, Pillow can allocate the canvas and the box of
    every paste is made of C ints. *)
Theorem make_poster_returns_iff (E : Env) (images : list Image)
    (cols rows margin spacing : Z) (bg : string) :
  (exists poster, make_poster E images cols rows margin spacing bg = Ok poster)
  <-> exists color cellW cellH,
        getrgb E bg = Some color
        /\ is_max_of cellW (width <$> images)
        /\ is_max_of cellH (height <$> images)
        /\ cols <> 0
        /\ 0 <= cols * cellW + (cols - 1) * spacing + 2 * margin <= INT_MAX
        /\ 0 <= rows * cellH + (rows - 1) * spacing + 2 * margin <= INT_MAX
        /\ can_allocate E (cols * cellW + (cols - 1) * spacing + 2 * margin)
                          (rows * cellH + (rows - 1) * spacing + 2 * margin) = true
        /\ pastes_fit cols margin spacing cellW cellH images.
Proof.
  split.
  - intros [poster Hp].
    destruct images as [|im rest]; [discriminate|].
    destruct (is_max_of_exists (width <$> im :: rest)) as [cellW HW]; [discriminate|].
    destruct (is_max_of_exists (height <$> im :: rest)) as [cellH HH]; [discriminate|].
    destruct (make_poster_Ok_world _ _ _ _ _ _ _ _ _ _ HW HH Hp)
      as ([color Hbg] & Hc & Hw & Hh & Hmem & Hfits).
    exists color, cellW, cellH. auto 10.
  - intros (color & cellW & cellH & Hbg & HW & HH & Hc & Hw & Hh & Hmem & Hfits).
    eapply make_poster_returns; eauto.
Qed.

(** Two distinct indices lie in different cells of the grid. *)
Lemma cells_differ (i j cols : Z) :
  0 < cols -> 0 <= i -> 0 <= j -> i <> j ->
  i mod cols <> j mod cols \/ i / cols <> j / cols.
Proof.
  intros Hc Hi Hj Hij.
  destruct (Z.eq_dec (i mod cols) (j mod cols)) as [Hm | Hm]; [|by left].
  right. intros Hd. apply Hij.
  rewrite (Z.div_mod i cols), (Z.div_mod j cols) by lia. congruence.
Qed.

(** Cells of different columns (or rows) do not meet: [c] and [c'] are
    the cell indices along one axis, [cell] the cell size, [d] and [d']
    the centring offsets of two pages of sizes [s] and [s']. *)
Lemma cells_apart (margin spacing cell c c' s s' : Z) :
  0 <= spacing -> 0 <= cell -> s <= cell -> s' <= cell -> c < c' ->
  margin + c * (cell + spacing) + (cell - s) / 2 + s
  <= margin + c' * (cell + spacing) + (cell - s') / 2.
Proof.
  intros Hs Hcell Hsz Hsz' Hc.
  pose proof (Z.div_mod (cell - s) 2 ltac:(lia)) as Hd.
  pose proof (Z.mod_pos_bound (cell - s) 2 ltac:(lia)) as Hm.
  pose proof (Z.div_mod (cell - s') 2 ltac:(lia)) as Hd'.
  pose proof (Z.mod_pos_bound (cell - s') 2 ltac:(lia)) as Hm'.
  assert ((c + 1) * (cell + spacing) <= c' * (cell + spacing))
    by (apply Z.mul_le_mono_nonneg_r; lia).
  lia.
Qed.

(** X4: in a poster that make_poster returns for pages of positive size,
    at least one column and a spacing that is not negative, no two pasted
    pages overlap. *)
Theorem make_poster_no_overlap (E : Env) (images : list Image)
    (cols rows margin spacing : Z) (bg : string) (poster : Image) :
  Forall page_ok images ->
  1 <= cols -> 0 <= spacing ->
  make_poster E images cols rows margin spacing bg = Ok poster ->
  forall (i j : nat) p1 x1 y1 p2 x2 y2,
    i <> j ->
    pastes poster !! i = Some (p1, (x1, y1)) ->
    pastes poster !! j = Some (p2, (x2, y2)) ->
    rect_disjoint x1 y1 (width p1) (height p1) x2 y2 (width p2) (height p2).
Proof.
  intros Hok Hc Hs Hp i j p1 x1 y1 p2 x2 y2 Hij H1 H2.
  assert (Hne : images <> []) by (intros ->; discriminate).
  destruct (is_max_of_exists (width <$> images)) as [cellW HW]; [by destruct images|].
  destruct (is_max_of_exists (height <$> images)) as [cellH HH]; [by destruct images|].
  rewrite Forall_forall in Hok.
  assert (0 < cellW) by (eapply is_max_of_pos; [|exact HW]; intros; by apply Hok).
  assert (0 < cellH) by (eapply is_max_of_pos; [|exact HH]; intros; by apply Hok).
  eapply make_poster_Ok_inv in Hp as (_ & _ & Hps); eauto; [|lia].
  rewrite Hps, list_lookup_imap in H1, H2.
  destruct (images !! i) as [q1|] eqn:Hq1; [|discriminate].
  destruct (images !! j) as [q2|] eqn:Hq2; [|discriminate].
  cbn in H1, H2. unfold placement in H1, H2.
  injection H1 as <- <- <-. injection H2 as <- <- <-.
  assert (Hin1 : q1 ∈ images) by (eapply list_elem_of_lookup_2; eauto).
  assert (Hin2 : q2 ∈ images) by (eapply list_elem_of_lookup_2; eauto).
  pose proof (is_max_of_ge width images cellW q1 HW Hin1).
  pose proof (is_max_of_ge width images cellW q2 HW Hin2).
  pose proof (is_max_of_ge height images cellH q1 HH Hin1).
  pose proof (is_max_of_ge height images cellH q2 HH Hin2).
  unfold rect_disjoint.
  destruct (cells_differ (Z.of_nat i) (Z.of_nat j) cols) as [Hcol | Hrow]; try lia.
  - destruct (Z.lt_total (Z.of_nat i mod cols) (Z.of_nat j mod cols)) as [Hlt | [Heq | Hgt]];
      [left | contradiction | right; left]; apply cells_apart; lia.
  - destruct (Z.lt_total (Z.of_nat i / cols) (Z.of_nat j / cols)) as [Hlt | [Heq | Hgt]];
      [right; right; left | contradiction | right; right; right];
      apply cells_apart; lia.
Qed.

(** The first two demo pages on the 2x2 grid of the demo run. *)
Lemma make_poster_no_overlap_witness :
  rect_disjoint 41 16 (width (Pixmap 100 200 0)) (height (Pixmap 100 200 0))
                174 41 (width (Pixmap 150 150 1)) (height (Pixmap 150 150 1)).
Proof.
  apply (make_poster_no_overlap demo_env demo_pages 2 2 16 8 "#FFFFFF" demo_poster
           ltac:(repeat constructor) ltac:(lia) ltac:(lia) eq_refl 0%nat 1%nat).
  - discriminate.
  - reflexivity.
  - reflexivity.
Defined.

(** ** downscale_if_needed on any max_width *)

(** The two ways downscale_if_needed returns. *)
Lemma downscale_cases (img : Image) (max_width : Z) :
  0 < width img -> 0 < height img -> width img * height img <= 2 ^ 51 ->
  ((max_width <= 0 \/ width img <= max_width)
   /\ downscale_if_needed img max_width = Ok img)
  \/ (0 < max_width < width img
      /\ exists t,
           downscale_if_needed img max_width
             = Ok (Resampled img max_width (Z.max 1 t))
           /\ height img * max_width / width img - 1 <= t
              <= height img * max_width / width img).
Proof.
  intros Hw Hh Hpix. unfold downscale_if_needed.
  destruct (Z.leb_spec max_width 0); [left; split; [lia | reflexivity]|].
  destruct (Z.leb_spec (width img) max_width); [left; split; [lia | reflexivity]|].
  right. split; [lia|].
  destruct (scaled_height (height img) max_width (width img) ltac:(lia) Hh Hpix)
    as (ratio & scaled & t & Hdiv & Hmul & Hint & Hb & _).
  exists t. split; [|exact Hb].
  cbn [orb]. rewrite Hdiv. cbn [bind]. rewrite Hmul. cbn [bind].
  rewrite Hint. reflexivity.
Qed.

(** X5: for an image of positive size and at most 2^51 pixels and any
    max_width, downscale_if_needed returns an image that is never larger
    than the input in either dimension, is at least one pixel high and
    wide, is at most max_width wide when max_width is positive, and keeps
    the aspect ratio up to two pixels of height. *)
Theorem downscale_never_enlarges (img : Image) (max_width : Z) :
  0 < width img -> 0 < height img -> width img * height img <= 2 ^ 51 ->
  exists out,
    downscale_if_needed img max_width = Ok out
    /\ 1 <= width out <= width img
    /\ 1 <= height out <= height img
    /\ (0 < max_width -> width out <= max_width)
    /\ height img * width out < (height out + 2) * width img
    /\ (1 < height out -> height out * width img <= height img * width out).
Proof.
  intros Hw Hh Hpix.
  destruct (downscale_cases img max_width Hw Hh Hpix)
    as [[Hguard ->] | [Hmw (t & -> & Ht)]].
  - exists img. split; [reflexivity|].
    split; [lia|]. split; [lia|]. split; [lia|]. split; [nia | lia].
  - eexists. split; [reflexivity|]. cbn [width height].
    set (X := height img * max_width / width img) in *.
    assert (HX : X * width img <= height img * max_width < (X + 1) * width img).
    { unfold X. pose proof (Z.div_mod (height img * max_width) (width img) ltac:(lia)).
      pose proof (Z.mod_pos_bound (height img * max_width) (width img) ltac:(lia)). lia. }
    assert (HXh : X <= height img).
    { assert (height img * max_width <= height img * width img)
        by (apply Z.mul_le_mono_nonneg_l; lia).
      destruct (Z.leb_spec X (height img)); [assumption|].
      assert ((height img + 1) * width img <= X * width img)
        by (apply Z.mul_le_mono_nonneg_r; lia). lia. }
    split; [lia|]. split; [lia|]. split; [lia|]. split.
    + assert ((X + 1) * width img <= (Z.max 1 t + 2) * width img)
        by (apply Z.mul_le_mono_nonneg_r; lia). lia.
    + intros H1. assert (Z.max 1 t * width img <= X * width img)
        by (apply Z.mul_le_mono_nonneg_r; lia). lia.
Qed.

Lemma downscale_never_enlarges_witness :
  exists out,
    downscale_if_needed (Pixmap 3000 2000 0) 1024 = Ok out
    /\ 1 <= width out <= 3000
    /\ 1 <= height out <= 2000
    /\ (0 < 1024 -> width out <= 1024)
    /\ 2000 * width out < (height out + 2) * 3000
    /\ (1 < height out -> height out * 3000 <= 2000 * width out).
Proof.
  apply (downscale_never_enlarges (Pixmap 3000 2000 0) 1024); simpl; lia.
Defined.

(** X6: downscaling is idempotent: the image downscale_if_needed returns
    is returned unchanged by a second call with the same max_width. *)
Theorem downscale_idempotent (img : Image) (max_width : Z) :
  0 < width img -> 0 < height img -> width img * height img <= 2 ^ 51 ->
  exists out,
    downscale_if_needed img max_width = Ok out
    /\ downscale_if_needed out max_width = Ok out.
Proof.
  intros Hw Hh Hpix.
  destruct (downscale_cases img max_width Hw Hh Hpix)
    as [[Hguard Hid] | [Hmw (t & Hres & _)]].
  - exists img. split; exact Hid.
  - eexists. split; [exact Hres|].
    unfold downscale_if_needed. cbn [width].
    destruct (Z.leb_spec max_width 0); [reflexivity|].
    destruct (Z.leb_spec max_width max_width); [reflexivity | lia].
Qed.

Lemma downscale_idempotent_witness :
  exists out,
    downscale_if_needed (Pixmap 3000 2000 0) 1024 = Ok out
    /\ downscale_if_needed out 1024 = Ok out.
Proof.
  apply (downscale_idempotent (Pixmap 3000 2000 0) 1024); simpl; lia.
Defined.

(** ** process_pdf: documents that cannot be composed *)

Lemma compute_grid_no_pages (E : Env) (cols : string) :
  compute_grid E 0 cols =
    if String.eqb cols "1" then Ok (1, 0)
    else if String.eqb (lower cols) "auto" then Raise ZeroDivisionError
    else match int_of_str E cols with
         | Ok v => Ok (Z.max 1 v, 0)
         | Raise e => Raise e
         end.
Proof.
  unfold compute_grid.
  destruct (String.eqb cols "1"); [reflexivity|].
  destruct (String.eqb (lower cols) "auto"); [reflexivity|].
  destruct (int_of_str E cols) as [v|e]; [|reflexivity].
  cbn [bind]. unfold int_truediv.
  destruct (Z.eqb_spec (Z.max 1 v) 0); [lia|].
  destruct (Z.max 1 v) as [|p|p] eqn:Hc; try lia. reflexivity.
Qed.

(** X7: a document with no page is rendered and then fails, whatever the
    options are; nothing is composed or written for it. The error is a
    ZeroDivisionError in "auto" mode (any letter case), the ValueError that
    int() raises for a columns specification that is not a number, and the
    ValueError "No images to compose." of make_poster otherwise. *)
Theorem process_pdf_empty_document (E : Env) (pdf out_dir : Path) (dpi : Z)
    (cols : string) (margin spacing : Z) (bg : string) (fmts : list string)
    (suffix : string) (max_width : Z) :
  fitz_pages E pdf dpi = Ok [] ->
  exists e,
    process_pdf E pdf out_dir dpi cols margin spacing bg fmts suffix max_width
      = ([Rendered pdf []], Raise e)
    /\ (lower cols = "auto"%string -> e = ZeroDivisionError)
    /\ (invalid_cols E cols = true ->
        int_of_str E cols = Raise e /\ exists msg, e = ValueError msg)
    /\ (forall v, int_of_str E cols = Ok v -> e = ValueError "No images to compose.").
Proof.
  intros Hfitz.
  unfold process_pdf, render_pdf_pages, lift, emit, tret. rewrite Hfitz.
  cbn [tbind app length Z.of_nat]. rewrite compute_grid_no_pages.
  destruct (String.eqb_spec cols "1") as [-> | Hne1].
  { eexists. split; [reflexivity|]. split; [discriminate|].
    split; [discriminate | reflexivity]. }
  destruct (String.eqb_spec (lower cols) "auto") as [Hauto | Hnauto].
  { eexists. split; [reflexivity|]. split; [reflexivity|]. split.
    - unfold invalid_cols. rewrite Hauto. cbn. rewrite andb_false_r. discriminate.
    - intros v Hv. rewrite (int_of_str_auto E cols Hauto) in Hv. discriminate. }
  destruct (int_of_str E cols) as [v|e] eqn:Hint.
  - eexists. split; [reflexivity|]. split; [contradiction|]. split.
    + unfold invalid_cols. rewrite Hint, andb_false_r. discriminate.
    + reflexivity.
  - eexists. split; [reflexivity|]. split; [contradiction|]. split.
    + intros _. split; [reflexivity|]. exact (int_of_str_raises E cols e Hint).
    + discriminate.
Qed.

(** The empty demo document in "auto" mode and with the columns
    specification "abc". *)
Lemma process_pdf_empty_document_witness :
  (exists e,
     process_pdf demo_env "in/empty.pdf" "out" 300 "auto" 16 8 "#FFFFFF" ["PNG"%string]
       "_poster" 0
       = ([Rendered "in/empty.pdf" []], Raise e)
     /\ e = ZeroDivisionError)
  /\ (exists e,
        process_pdf demo_env "in/empty.pdf" "out" 300 "abc" 16 8 "#FFFFFF" ["PNG"%string]
          "_poster" 0
          = ([Rendered "in/empty.pdf" []], Raise e)
        /\ int_of_str demo_env "abc" = Raise e).
Proof.
  split.
  - destruct (process_pdf_empty_document demo_env "in/empty.pdf" "out" 300 "auto" 16 8
                "#FFFFFF" ["PNG"%string] "_poster" 0) as (e & Hp & Hauto & _).
    + reflexivity.
    + exists e. split; [exact Hp | exact (Hauto eq_refl)].
  - destruct (process_pdf_empty_document demo_env "in/empty.pdf" "out" 300 "abc" 16 8
                "#FFFFFF" ["PNG"%string] "_poster" 0) as (e & Hp & _ & Hbad & _).
    + reflexivity.
    + exists e. split; [exact Hp | exact (proj1 (Hbad eq_refl))].
Defined.



(** ** The files process_pdf writes *)

(** A list without duplicates over two values has at most two elements. *)
Lemma NoDup_two (a b : string) (l : list string) :
  NoDup l -> (forall f, f ∈ l -> f = a \/ f = b) -> (length l <= 2)%nat.
Proof.
  intros Hnd Hin.
  destruct l as [|x [|y [|z l]]]; cbn [length]; try lia. exfalso.
  apply NoDup_cons in Hnd as [Hx Hnd]. apply NoDup_cons in Hnd as [Hy _].
  assert (Hxy : x <> y) by (intros ->; apply Hx; apply elem_of_cons; by left).
  assert (Hxz : x <> z)
    by (intros ->; apply Hx; apply elem_of_cons; right; apply elem_of_cons; by left).
  assert (Hyz : y <> z) by (intros ->; apply Hy; apply elem_of_cons; by left).
  destruct (Hin x) as [-> | ->]; [apply elem_of_cons; by left | |];
    (destruct (Hin y) as [-> | ->];
       [apply elem_of_cons; right; apply elem_of_cons; by left | |]);
    (destruct (Hin z) as [-> | ->];
       [do 2 (apply elem_of_cons; right); apply elem_of_cons; by left | |]);
    congruence.
Qed.

Lemma string_app_inv_head (s a b : string) :
  (s ++ a)%string = (s ++ b)%string -> a = b.
Proof. induction s as [|c s IH]; cbn; [auto|]. intros [= H]. auto. Qed.

(** The two supported formats are written to different files. *)
Lemma out_path_for_inj (E : Env) (pdf out_dir : Path) (suffix f g : string) :
  (f = "PNG"%string \/ f = "JPEG"%string) ->
  (g = "PNG"%string \/ g = "JPEG"%string) ->
  out_path_for E pdf out_dir suffix f = out_path_for E pdf out_dir suffix g ->
  f = g.
Proof.
  unfold out_path_for, out_file.
  intros [-> | ->] [-> | ->] H; try reflexivity; exfalso;
    change (upper "PNG") with "PNG"%string in H;
    change (upper "JPEG") with "JPEG"%string in H; cbn [String.eqb Ascii.eqb] in H;
    do 3 apply string_app_inv_head in H; discriminate.
Qed.

(** X9: the files written for a document that is processed to the end are
    pairwise distinct, one per resolved format, and there are one or two of
    them: the PNG and the JPEG of one document never collide. *)
Theorem process_outputs_distinct (E : Env) (args : Args) (pdf : Path)
    (outs : list Path) :
  snd (process_under E args pdf) = Ok outs ->
  NoDup outs
  /\ length outs = length (resolve_formats args)
  /\ (1 <= length outs <= 2)%nat.
Proof.
  intros Hok. destruct (process_under E args pdf) as [t r] eqn:Hp.
  cbn [snd] in Hok. subst r.
  apply process_pdf_Ok in Hp as [Houts _].
  destruct (resolve_formats_shape args) as (Hne & Hnd & Hin).
  subst outs. split; [|split].
  - apply NoDup_fmap_2_strong; [|exact Hnd].
    intros f g Hf Hg. apply out_path_for_inj; auto.
  - apply length_fmap.
  - rewrite length_fmap. split.
    + destruct (resolve_formats args); [contradiction | cbn; lia].
    + eapply NoDup_two; eauto.
Qed.

(** ** main: exit status and reports *)








(** ** process_pdf: writing the files, and the whole pipeline *)

Lemma save_formats_writable (E : Env) (pdf out_dir : Path) (suffix : string)
    (poster : Image) (fmts : list string) (acc : list Path) :
  (forall f, f ∈ fmts -> can_write E (out_path_for E pdf out_dir suffix f) = true) ->
  save_formats E pdf out_dir suffix poster fmts acc
  = (saved_event E pdf out_dir suffix poster <$> fmts,
     Ok (acc ++ (out_path_for E pdf out_dir suffix <$> fmts))).
Proof.
  revert acc. induction fmts as [|fmt rest IH]; intros acc Hw; cbn [save_formats].
  - cbn. by rewrite app_nil_r.
  - unfold save_image. fold (out_path_for E pdf out_dir suffix fmt).
    rewrite (Hw fmt) by (apply elem_of_cons; by left).
    unfold emit. cbn [tbind].
    rewrite IH by (intros f Hf; apply Hw; apply elem_of_cons; by right).
    cbn. by rewrite <- app_assoc.
Qed.

Lemma save_formats_unwritable (E : Env) (pdf out_dir : Path) (suffix : string)
    (poster : Image) (pre post : list string) (fmt : string) (acc : list Path) :
  (forall f, f ∈ pre -> can_write E (out_path_for E pdf out_dir suffix f) = true) ->
  can_write E (out_path_for E pdf out_dir suffix fmt) = false ->
  save_formats E pdf out_dir suffix poster (pre ++ fmt :: post) acc
  = (saved_event E pdf out_dir suffix poster <$> pre,
     Raise (OSError (out_path_for E pdf out_dir suffix fmt))).
Proof.
  revert acc. induction pre as [|f0 pre IH]; intros acc Hw Hno; cbn [app save_formats].
  - unfold save_image. fold (out_path_for E pdf out_dir suffix fmt).
    rewrite Hno. reflexivity.
  - unfold save_image. fold (out_path_for E pdf out_dir suffix f0).
    rewrite (Hw f0) by (apply elem_of_cons; by left).
    unfold emit. cbn [tbind].
    rewrite IH; [reflexivity | | exact Hno].
    intros f Hf. apply Hw. apply elem_of_cons. by right.
Qed.

(** X12: when a file cannot be written, process_pdf stops there with an
    OSError naming that file: the files of the formats before it stay
    written, the formats after it are not attempted, and no list of
    outputs is returned. *)
Theorem process_pdf_write_failure (E : Env) (pdf out_dir : Path) (dpi : Z)
    (cols : string) (margin spacing : Z) (bg : string)
    (pre post : list string) (fmt suffix : string) (max_width : Z)
    (pages : list Image) (c r : Z) (poster final : Image) :
  fitz_pages E pdf dpi = Ok pages ->
  compute_grid E (Z.of_nat (length pages)) cols = Ok (c, r) ->
  make_poster E pages c r margin spacing bg = Ok poster ->
  downscale_if_needed poster max_width = Ok final ->
  (forall f, f ∈ pre -> can_write E (out_path_for E pdf out_dir suffix f) = true) ->
  can_write E (out_path_for E pdf out_dir suffix fmt) = false ->
  process_pdf E pdf out_dir dpi cols margin spacing bg (pre ++ fmt :: post)
    suffix max_width
  = (Rendered pdf pages :: Composed pdf poster
       :: (saved_event E pdf out_dir suffix final <$> pre),
     Raise (OSError (out_path_for E pdf out_dir suffix fmt))).
Proof.
  intros Hfitz Hgrid Hmk Hdown Hw Hno.
  unfold process_pdf, render_pdf_pages, lift, emit, tret.
  rewrite Hfitz. cbn [tbind app]. rewrite Hgrid. cbn [tbind app].
  rewrite Hmk. cbn [tbind app]. rewrite Hdown. cbn [tbind app].
  rewrite (save_formats_unwritable _ _ _ _ _ _ _ _ _ Hw Hno). reflexivity.
Qed.

Lemma process_pdf_write_failure_witness :
  process_pdf jpeg_locked_env "in/good.pdf" "out" 300 "auto" 16 8 "#FFFFFF"
    (["PNG"%string] ++ "JPEG"%string :: []) "_poster" 0
  = ([Rendered "in/good.pdf" demo_pages;
      Composed "in/good.pdf" demo_poster;
      Saved "out/good_poster.png" "PNG" demo_poster],
     Raise (OSError "out/good_poster.jpg")).
Proof.
  apply (process_pdf_write_failure jpeg_locked_env "in/good.pdf" "out" 300 "auto" 16 8
           "#FFFFFF" ["PNG"%string] [] "JPEG" "_poster" 0 demo_pages 2 2
           demo_poster demo_poster).
  - reflexivity.
  - vm_compute. reflexivity.
  - reflexivity.
  - reflexivity.
  - intros f Hf. apply elem_of_cons in Hf as [-> | Hf]; [reflexivity|].
    by apply elem_of_nil in Hf.
  - reflexivity.
Defined.

(** X13: a document with at least one page (and at most 2^52), all of
    positive size, processed with a valid columns specification, a margin
    and a spacing that are not negative, a background colour that parses,
    a canvas whose sides are C ints, that has at most 2^51 pixels and that
    Pillow can allocate, and writable output files is processed to the
    end: the grid planned by compute_grid holds every page inside the
    canvas, and one file per format is written and returned. *)
Theorem process_pdf_succeeds (E : Env) (pdf out_dir : Path) (dpi : Z)
    (cols : string) (margin spacing : Z) (bg : string) (fmts : list string)
    (suffix : string) (max_width : Z)
    (pages : list Image) (color : rgb) (cellW cellH : Z) :
  fitz_pages E pdf dpi = Ok pages ->
  pages <> [] -> Forall page_ok pages -> Z.of_nat (length pages) <= 2 ^ 52 ->
  lower cols = "auto"%string \/ (exists v, int_of_str E cols = Ok v /\ v < 2 ^ 53) ->
  0 <= margin -> 0 <= spacing ->
  getrgb E bg = Some color ->
  is_max_of cellW (width <$> pages) ->
  is_max_of cellH (height <$> pages) ->
  (forall c r, compute_grid E (Z.of_nat (length pages)) cols = Ok (c, r) ->
               c * cellW + (c - 1) * spacing + 2 * margin <= INT_MAX
               /\ r * cellH + (r - 1) * spacing + 2 * margin <= INT_MAX
               /\ (c * cellW + (c - 1) * spacing + 2 * margin)
                  * (r * cellH + (r - 1) * spacing + 2 * margin) <= 2 ^ 51
               /\ can_allocate E (c * cellW + (c - 1) * spacing + 2 * margin)
                                 (r * cellH + (r - 1) * spacing + 2 * margin) = true) ->
  (forall f, f ∈ fmts -> can_write E (out_path_for E pdf out_dir suffix f) = true) ->
  exists poster final,
    process_pdf E pdf out_dir dpi cols margin spacing bg fmts suffix max_width
    = (Rendered pdf pages :: Composed pdf poster
         :: (saved_event E pdf out_dir suffix final <$> fmts),
       Ok (out_path_for E pdf out_dir suffix <$> fmts))
    /\ downscale_if_needed poster max_width = Ok final
    /\ (fst <$> pastes poster) = pages
    /\ forall page x y,
         (page, (x, y)) ∈ pastes poster ->
         0 <= x /\ 0 <= y
         /\ x + width page <= width poster /\ y + height page <= height poster.
Proof.
  intros Hfitz Hne Hok Hlen Hcols Hm Hs Hbg HW HH Hcanvas Hw.
  assert (Hn : 1 <= Z.of_nat (length pages)) by (destruct pages; [done | cbn; lia]).
  destruct (compute_grid_valid E (Z.of_nat (length pages)) cols ltac:(lia) Hcols)
    as (c & r & Hgrid & Hc & Hr & Hcover & _).
  destruct (Hcanvas c r Hgrid) as (HWmax & HHmax & Hpix & Hmem).
  pose proof Hok as Hok'. rewrite Forall_forall in Hok.
  assert (HcW : 0 < cellW) by (eapply is_max_of_pos; [|exact HW]; intros; by apply Hok).
  assert (HcH : 0 < cellH) by (eapply is_max_of_pos; [|exact HH]; intros; by apply Hok).
  assert (HtW : 0 < c * cellW + (c - 1) * spacing + 2 * margin).
  { assert (0 <= (c - 1) * spacing) by (apply Z.mul_nonneg_nonneg; lia).
    assert (0 < c * cellW) by (apply Z.mul_pos_pos; lia). lia. }
  assert (HtH : 0 < r * cellH + (r - 1) * spacing + 2 * margin).
  { assert (0 <= (r - 1) * spacing) by (apply Z.mul_nonneg_nonneg; lia).
    assert (0 < r * cellH) by (apply Z.mul_pos_pos; lia). lia. }
  destruct (make_poster_returns E pages c r margin spacing bg color cellW cellH)
    as [poster Hmk]; try assumption; try lia.
  { eapply pastes_fit_in_grid; eauto. }
  pose proof Hmk as Hinv.
  eapply make_poster_Ok_inv in Hinv as (Hpw & Hph & Hps); eauto; [|lia].
  assert (Hdown : exists final, downscale_if_needed poster max_width = Ok final).
  { destruct (downscale_cases poster max_width) as [[_ Hd] | (_ & t & Hd & _)];
      try (rewrite ?Hpw, ?Hph; solve [lia | auto]); eauto. }
  destruct Hdown as [final Hdown].
  exists poster, final. split; [|split; [exact Hdown | split]].
  - unfold process_pdf, render_pdf_pages, lift, emit, tret.
    rewrite Hfitz. cbn [tbind app]. rewrite Hgrid. cbn [tbind app].
    rewrite Hmk. cbn [tbind app]. rewrite Hdown. cbn [tbind app].
    rewrite (save_formats_writable _ _ _ _ _ _ _ Hw). reflexivity.
  - rewrite Hps, fmap_imap.
    rewrite (imap_ext _ (const id)); [|reflexivity].
    rewrite imap_const. apply list_fmap_id.
  - intros page x y Hin. rewrite Hps in Hin.
    apply elem_of_lookup_imap in Hin as (i & im & Heq & Hi).
    assert (Him : im ∈ pages) by (eapply list_elem_of_lookup_2; eauto).
    pose proof (is_max_of_ge width pages cellW im HW Him) as Hwle.
    pose proof (is_max_of_ge height pages cellH im HH Him) as Hhle.
    destruct (Hok im Him) as [Hwpos Hhpos].
    apply lookup_lt_Some in Hi.
    pose proof (placement_in_canvas c r margin spacing cellW cellH (Z.of_nat i) im
                  Hc ltac:(lia) Hm Hs ltac:(lia) ltac:(lia)) as Hfit.
    rewrite <- Heq in Hfit. cbn [fst snd] in Hfit.
    assert (page = im) by (unfold placement in Heq; congruence). subst page.
    rewrite Hpw, Hph. exact Hfit.
Qed.

Lemma process_pdf_succeeds_witness :
  exists poster final,
    process_pdf demo_env "in/good.pdf" "out" 300 "auto" 16 8 "#FFFFFF"
      ["PNG"; "JPEG"]%string "_poster" 0
    = (Rendered "in/good.pdf" demo_pages :: Composed "in/good.pdf" poster
         :: (saved_event demo_env "in/good.pdf" "out" "_poster" final
               <$> ["PNG"; "JPEG"]%string),
       Ok (out_path_for demo_env "in/good.pdf" "out" "_poster"
             <$> ["PNG"; "JPEG"]%string))
    /\ downscale_if_needed poster 0 = Ok final
    /\ (fst <$> pastes poster) = demo_pages
    /\ forall page x y,
         (page, (x, y)) ∈ pastes poster ->
         0 <= x /\ 0 <= y
         /\ x + width page <= width poster /\ y + height page <= height poster.
Proof.
  apply (process_pdf_succeeds demo_env "in/good.pdf" "out" 300 "auto" 16 8 "#FFFFFF"
           ["PNG"; "JPEG"]%string "_poster" 0 demo_pages (255, 255, 255) 150 200).
  - reflexivity.
  - discriminate.
  - repeat constructor.
  - simpl. lia.
  - left. reflexivity.
  - lia.
  - lia.
  - reflexivity.
  - apply py_max_Ok_is_max. reflexivity.
  - apply py_max_Ok_is_max. reflexivity.
  - intros c r H. vm_compute in H. injection H as <- <-.
    repeat split; vm_compute; congruence.
  - intros f Hf. reflexivity.
Defined.


(** The good demo document under --both: a PNG file and a JPEG file. *)
Lemma process_outputs_distinct_witness :
  NoDup ["out/good_poster.png"; "out/good_poster.jpg"]%string
  /\ length ["out/good_poster.png"; "out/good_poster.jpg"]%string
     = length (resolve_formats both_args)
  /\ (1 <= length ["out/good_poster.png"; "out/good_poster.jpg"]%string <= 2)%nat.
Proof.
  apply (process_outputs_distinct demo_env both_args "in/good.pdf").
  vm_compute. reflexivity.
Defined.

(** ** compute_grid: the shape of the auto grid; resolve_formats: the flags *)

(** X14: in "auto" mode (any letter case) the grid for 1 to 2^52 pages is
    square or one row short of square: rows <= columns <= rows + 1. *)
Theorem compute_grid_auto_near_square (E : Env) (n : Z) (cols : string) :
  1 <= n <= 2 ^ 52 ->
  lower cols = "auto"%string ->
  exists c r, compute_grid E n cols = Ok (c, r) /\ r <= c <= r + 1.
Proof.
  intros Hn Hauto.
  rewrite (compute_grid_auto_any_case E n cols Hauto), (compute_grid_auto_value E n Hn).
  destruct (sqrt_ceil_spec n ltac:(lia)) as (HK1 & HKlo & HKhi).
  set (K := Z.sqrt (n - 1) + 1) in *.
  pose proof (ceil_div_spec n K ltac:(lia)) as [Hrlo Hrhi].
  set (r := - ((- n) / K)) in *.
  exists K, r. split; [reflexivity|]. split.
  - destruct (Z.leb_spec r K); [assumption|]. exfalso.
    assert (K * K <= (r - 1) * K) by (apply Z.mul_le_mono_nonneg_r; lia). lia.
  - destruct (Z.leb_spec K (r + 1)); [assumption|]. exfalso.
    assert (r * K <= (K - 2) * K) by (apply Z.mul_le_mono_nonneg_r; lia). lia.
Qed.

Lemma compute_grid_auto_near_square_witness :
  exists c r, compute_grid demo_env 7 "Auto" = Ok (c, r) /\ r <= c <= r + 1.
Proof.
  apply (compute_grid_auto_near_square demo_env 7 "Auto"); [lia | reflexivity].
Defined.

(** X15: without a --formats list, --both selects PNG then JPEG, and
    otherwise the legacy --format alone decides: PNG gives PNG, JPG and
    JPEG give JPEG, whatever the other arguments are. *)
Theorem resolve_formats_flags (args : Args) :
  args_formats args = ""%string ->
  (args_both args = true -> resolve_formats args = ["PNG"; "JPEG"]%string)
  /\ (args_both args = false ->
      (args_format args = "PNG"%string -> resolve_formats args = ["PNG"%string])
      /\ (args_format args = "JPG"%string \/ args_format args = "JPEG"%string ->
          resolve_formats args = ["JPEG"%string])).
Proof.
  intros Hf. unfold resolve_formats, requested_formats. rewrite Hf. cbn [String.eqb negb].
  split.
  - intros ->. vm_compute. reflexivity.
  - intros ->. split.
    + intros ->. vm_compute. reflexivity.
    + intros [-> | ->]; vm_compute; reflexivity.
Qed.

Lemma resolve_formats_flags_witness :
  resolve_formats demo_args = ["PNG"%string].
Proof.
  destruct (resolve_formats_flags demo_args) as [_ Hlegacy]; [reflexivity|].
  destruct Hlegacy as [Hpng _]; [reflexivity|]. apply Hpng. reflexivity.
Defined.
